(** * TinyFS: the sandboxed file-system client of GhostForge

    A shallow embedding of [ghostforge/tinyfs/client.py],
    [ghostforge/tinyfs/models.py], [ghostforge/tinyfs/exceptions.py],
    [ghostforge/tinyfs/cli.py] and the command of
    [ghostforge/tinyfs/shell_integration.py], together with the properties
    of the client that its specification states and further properties
    that the code shows.

    Conventions of the model
    - Python [str] is [string]; one character is one byte of a file, and
      every file holds text that decodes.  [split()] and [lower()] are
      those of the ASCII range.
    - The operating system is a POSIX one whose file system holds regular
      files and directories only (no symbolic links, no permissions), so
      [Path.resolve()] is the lexical normal form of an absolute path.
      It takes a name without a NUL byte, of components of at most 255
      bytes and fewer than 4096 bytes in all; a statement that tells what
      a call answers for a name says so ([well_named]).
      A leading double slash is read as a single one.  The file system is a
      finite map from resolved paths to nodes; in a well-formed one every
      entry but the root has a directory as its parent.
    - A Python list is an object of the heap: the client holds a reference
      to its history, [copy()] and slicing allocate, [append] updates in
      place.
    - An operation is a function from the machine (client, file system,
      heap, clock, working directory) to a result, returned or raised, and
      the machine it leaves.
    - Message texts of exceptions raised by the library follow CPython 3.12.
    - Logging and printing are not modelled. *)

From Stdlib Require Import ZArith Ascii String.
From stdpp Require Import gmap strings list fin_maps pretty.

Open Scope string_scope.
Open Scope Z_scope.

(** ** Strings and paths *)

Module PyStr.

(** [s.split(sep)] for a one-character separator. *)
Fixpoint split_on (sep : ascii) (s : string) : list string :=
  match s with
  | EmptyString => [EmptyString]
  | String c rest =>
        if Ascii.eqb c sep then EmptyString :: split_on sep rest
        else match split_on sep rest with
             | [] => [String c EmptyString]
             | w :: ws => String c w :: ws
             end
  end.

(** [sep.join(parts)]. *)
Fixpoint join (sep : string) (parts : list string) : string :=
  match parts with
  | [] => EmptyString
  | [w] => w
  | w :: ws => w +:+ sep +:+ join sep ws
  end.

(** [s.startswith(pre)]. *)
Definition startswith (s pre : string) : bool := String.prefix pre s.

(** [s[:n]]. *)
Definition take (n : nat) (s : string) : string := String.substring 0 n s.

(** Decimal rendering of a length, as an f-string does. *)
Definition of_nat (n : nat) : string := pretty (N.of_nat n).

(** [c.isspace()] for a character of the ASCII range: tab to carriage
    return, the four separators from 28 to 31, and the blank. *)
Definition isspace (c : ascii) : bool :=
  let n := nat_of_ascii c in
  ((9 <=? n) && (n <=? 13) || (28 <=? n) && (n <=? 32))%nat.

(** The pieces of [s] between its whitespace characters, empty ones
    included. *)
Fixpoint fields (s : string) : list string :=
  match s with
  | EmptyString => [EmptyString]
  | String c rest =>
        if isspace c then EmptyString :: fields rest
        else match fields rest with
             | [] => [String c EmptyString]
             | w :: ws => String c w :: ws
             end
  end.

(** [s.split()]: the maximal runs of [s] without whitespace. *)
Definition split (s : string) : list string :=
  List.filter (fun w => negb (String.eqb w EmptyString)) (fields s).

(** [s.lower()] for a text of the ASCII range. *)
Definition lower_char (c : ascii) : ascii :=
  let n := nat_of_ascii c in
  if ((65 <=? n) && (n <=? 90))%nat then ascii_of_nat (n + 32) else c.

Fixpoint lower (s : string) : string :=
  match s with
  | EmptyString => EmptyString
  | String c rest => String (lower_char c) (lower rest)
  end.

End PyStr.

(** A resolved absolute path is the list of its components below [/];
    [[]] is the root directory. *)
Abbreviation Path := (list string).

Module PathLib.

(** An unresolved [pathlib.Path]: whether it is anchored at [/], and its
      parts.  Parsing drops empty and [.] components and keeps [..]. *)
Record PurePath := { anchored : bool; parts : list string }.

Definition isabs (s : string) : bool := PyStr.startswith s "/".

Definition keep_part (w : string) : bool :=
  negb (String.eqb w "") && negb (String.eqb w ".").

Definition parse (s : string) : PurePath :=
  {| anchored := isabs s;
       parts := List.filter keep_part (PyStr.split_on "/" s) |}.

Definition of_path (p : Path) : PurePath :=
  {| anchored := true; parts := p |}.

(** [base / other]. *)
Definition joinpath (base other : PurePath) : PurePath :=
  if anchored other then other
  else {| anchored := anchored base; parts := parts base ++ parts other |}.

Definition parent (p : Path) : Path := removelast p.

Definition name (p : Path) : string := List.last p "".

(** One step of the walk of [os.path.realpath]: [..] drops the last
      component (and stays at the root), anything else is appended. *)
Definition walk (acc : Path) (w : string) : Path :=
  if String.eqb w ".." then parent acc else acc ++ [w].

(** [Path.resolve()], for a process whose working directory is [cwd] and
    a path without a NUL byte; on one it raises [ValueError] (see
    [well_named]). *)
Definition resolve (cwd : Path) (p : PurePath) : Path :=
  if anchored p then fold_left walk (parts p) []
  else fold_left walk (parts p) cwd.

(** [str(p)] of a resolved path. *)
Definition str (p : Path) : string := "/" +:+ PyStr.join "/" p.

(** [str(p)] of an arbitrary path object. *)
Definition str_pure (p : PurePath) : string :=
  if anchored p then str (parts p)
  else match parts p with [] => "." | ws => PyStr.join "/" ws end.

(** [p.relative_to(base)]: component-wise; [None] stands for the
      [ValueError] that pathlib raises when [base] is not a prefix. *)
Fixpoint relative_to (p base : Path) : option (list string) :=
  match base, p with
  | [], _ => Some p
  | b :: base', w :: p' =>
        if String.eqb b w then relative_to p' base' else None
  | _ :: _, [] => None
  end.

(** [str] of the relative path that [relative_to] returns. *)
Definition str_rel (r : list string) : string :=
  match r with [] => "." | _ => PyStr.join "/" r end.

End PathLib.

(** ** Exceptions ([exceptions.py] and the built-in classes the client meets) *)

Inductive exn_class :=
| Exception
| OSError
| FileNotFoundError
| FileExistsError
| IsADirectoryError
| NotADirectoryError
| ValueError
| ShutilError
| SameFileError
| TinyFSError
| SecurityError
| PathValidationError
| OperationNotAllowedError
| SandboxError
| CommandExecutionError
| OperationCancelledError.

#[global] Instance exn_class_eq_dec : EqDecision exn_class.
Proof. solve_decision. Defined.

(** The direct base class of a class, [None] for [Exception] itself. *)
Definition base (c : exn_class) : option exn_class :=
  match c with
  | Exception => None
  | OSError | ValueError | TinyFSError => Some Exception
  | FileNotFoundError | FileExistsError | IsADirectoryError
  | NotADirectoryError | ShutilError => Some OSError
  | SameFileError => Some ShutilError
  | SecurityError | SandboxError | CommandExecutionError
  | OperationCancelledError => Some TinyFSError
  | PathValidationError | OperationNotAllowedError => Some SecurityError
  end.

(** The class and its bases, nearest first. *)
Fixpoint mro_upto (depth : nat) (c : exn_class) : list exn_class :=
  c :: match depth, base c with
       | S d, Some b => mro_upto d b
       | _, _ => []
       end.

Definition mro (c : exn_class) : list exn_class := mro_upto 4 c.

Definition issubclass (c d : exn_class) : bool := bool_decide (d ∈ mro c).

(** A raised exception: its class and [str(e)]. *)
Record exn := { exn_class_of : exn_class; exn_str : string }.

Definition isinstance (e : exn) (c : exn_class) : bool :=
  issubclass (exn_class_of e) c.

Inductive result (A : Type) :=
| Return (a : A)
| Raise (e : exn).
Arguments Return {A} a.
Arguments Raise {A} e.

(** ** The file system and the calls of [os], [pathlib] and [shutil] *)

Inductive node :=
| File (content : string)
| Dir.

#[global] Instance node_eq_dec : EqDecision node.
Proof. solve_decision. Defined.

Module OS.

(** An [OSError] as CPython renders it. *)
Definition os_error (c : exn_class) (errno : Z) (text : string) (p : Path) : exn :=
  {| exn_class_of := c;
     exn_str := "[Errno " +:+ pretty errno +:+ "] " +:+ text +:+ ": '"
                +:+ PathLib.str p +:+ "'" |}.

Definition ENOENT := os_error FileNotFoundError 2 "No such file or directory".
Definition EEXIST := os_error FileExistsError 17 "File exists".
Definition ENOTDIR := os_error NotADirectoryError 20 "Not a directory".
Definition EISDIR := os_error IsADirectoryError 21 "Is a directory".

(** [Path.exists()], for a path within the limits of the operating system
    on names; beyond them it raises [OSError] (see [well_named]). *)
Definition exists_ (fs : gmap Path node) (p : Path) : bool :=
  match fs !! p with Some _ => true | None => false end.

Definition is_dir (fs : gmap Path node) (p : Path) : bool :=
  match fs !! p with Some Dir => true | _ => false end.

Definition is_file (fs : gmap Path node) (p : Path) : bool :=
  match fs !! p with Some (File _) => true | _ => false end.

(** The walk of the kernel from the directory [seen] down the components
    [rest]: it stops at the first place that is missing or is not a
    directory, and tells which error that is. *)
Fixpoint walk_error (fs : gmap Path node) (seen : Path) (rest : list string)
  : option (Path → exn) :=
  match fs !! seen with
  | None => Some ENOENT
  | Some (File _) => Some ENOTDIR
  | Some Dir =>
      match rest with
      | [] => None
      | w :: rest' => walk_error fs (seen ++ [w]) rest'
      end
  end.

(** What the kernel answers, about the path [p] it was given, when it
    cannot reach the directory that should hold [p]: a place on the way is
    missing or is not a directory. *)
Definition parent_error (fs : gmap Path node) (p : Path) : option exn :=
  match walk_error fs [] (PathLib.parent p) with
  | Some err => Some (err p)
  | None => None
  end.

(** [os.mkdir(p)]. *)
Definition mkdir (p : Path) (fs : gmap Path node) : result (gmap Path node) :=
  match parent_error fs p with
  | Some e => Raise e
  | None => if exists_ fs p then Raise (EEXIST p) else Return (<[p := Dir]> fs)
  end.

(** [Path(p).mkdir(parents=False, exist_ok=True)]. *)
Definition mkdir_exist_ok (p : Path) (fs : gmap Path node) : result (gmap Path node) :=
  match mkdir p fs with
  | Return fs' => Return fs'
  | Raise e =>
      if isinstance e FileNotFoundError then Raise e
      else if is_dir fs p then Return fs else Raise e
  end.

(** [Path(p).mkdir(parents=True, exist_ok=True)]: on a missing parent the
    parent is made first, recursively, unless the path is its own parent;
    [depth] is the number of components of [p], so the recursion stops at
    the root, where [p.parent == p]. *)
Fixpoint mkdir_parents_from (depth : nat) (p : Path) (fs : gmap Path node)
  : result (gmap Path node) :=
  match mkdir p fs with
  | Return fs' => Return fs'
  | Raise e =>
      if isinstance e FileNotFoundError then
        match depth with
        | O => Raise e
        | S d =>
            match mkdir_parents_from d (PathLib.parent p) fs with
            | Return fs1 => mkdir_exist_ok p fs1
            | Raise e1 => Raise e1
            end
        end
      else if is_dir fs p then Return fs else Raise e
  end.

Definition mkdir_parents (p : Path) (fs : gmap Path node) : result (gmap Path node) :=
  mkdir_parents_from (List.length p) p fs.

Definition CR : ascii := "013"%char.
Definition LF : ascii := "010"%char.

(** Universal-newlines decoding, which [open(p, 'r')] applies when no
    [newline] argument is given: [\r\n] and a lone [\r] are read as [\n]. *)
Fixpoint universal_newlines (s : string) : string :=
  match s with
  | EmptyString => EmptyString
  | String c rest =>
      if Ascii.eqb c CR then
        String LF
          match rest with
          | String c2 rest2 =>
              if Ascii.eqb c2 LF then universal_newlines rest2
              else universal_newlines rest
          | EmptyString => EmptyString
          end
      else String c (universal_newlines rest)
  end.

(** [open(p, 'r', encoding='utf-8').read()]. *)
Definition read_text (p : Path) (fs : gmap Path node) : result string :=
  match fs !! p with
  | None => Raise (ENOENT p)
  | Some Dir => Raise (EISDIR p)
  | Some (File c) => Return (universal_newlines c)
  end.

(** Creating or truncating [p] and storing [c] in it: [open(p, 'w')] and
    [open(p, 'wb')] followed by the write.  The line separator is [\n], so
    text mode stores the text as it is. *)
Definition write_data (p : Path) (c : string) (fs : gmap Path node)
  : result (gmap Path node) :=
  match parent_error fs p with
  | Some e => Raise e
  | None =>
      match fs !! p with
      | Some Dir => Raise (EISDIR p)
      | _ => Return (<[p := File c]> fs)
      end
  end.

(** [os.remove(p)] and [os.unlink(p)]. *)
Definition remove (p : Path) (fs : gmap Path node) : result (gmap Path node) :=
  match fs !! p with
  | None => Raise (ENOENT p)
  | Some Dir => Raise (EISDIR p)
  | Some (File _) => Return (delete p fs)
  end.

(** [os.rename(src, dst)] of a regular file holding [c]: renaming a file
    onto itself does nothing, an existing file at [dst] is replaced. *)
Definition rename_file (src dst : Path) (c : string) (fs : gmap Path node)
  : result (gmap Path node) :=
  match parent_error fs dst with
  | Some e => Raise e
  | None =>
      if decide (src = dst) then Return fs
      else if is_dir fs dst then Raise (EISDIR dst)
      else Return (<[dst := File c]> (delete src fs))
  end.

(** The entries of directory [p], as [Path.iterdir()] yields them (in the
    order of the map's enumeration; the OS fixes no order). *)
Definition iterdir (p : Path) (fs : gmap Path node) : list Path :=
  List.filter (fun q => bool_decide (q ≠ [] ∧ PathLib.parent q = p))
              (map fst (map_to_list fs)).

End OS.

Module Shutil.

(** [shutil.copy2(src, dst)]: a directory as destination receives the file
    under the source's name; copying a file onto itself is refused. *)
Definition copy2 (src dst : Path) (fs : gmap Path node) : result (gmap Path node) :=
  let real_dst := if OS.is_dir fs dst then (dst ++ [PathLib.name src])%list else dst in
  let dst_repr :=
    if OS.is_dir fs dst then "'" +:+ PathLib.str real_dst +:+ "'"
    else "PosixPath('" +:+ PathLib.str real_dst +:+ "')" in
  if bool_decide (src = real_dst) && OS.exists_ fs src then
    Raise {| exn_class_of := SameFileError;
             exn_str := "PosixPath('" +:+ PathLib.str src +:+ "') and "
                        +:+ dst_repr +:+ " are the same file" |}
  else
    match fs !! src with
    | None => Raise (OS.ENOENT src)
    | Some Dir => Raise (OS.EISDIR src)
    | Some (File c) => OS.write_data real_dst c fs
    end.

(** The tail of [shutil.move]: rename, and when the rename fails copy and
    unlink. *)
Definition rename_or_copy (src real_dst : Path) (c : string) (fs : gmap Path node)
  : result (gmap Path node) :=
  match OS.rename_file src real_dst c fs with
  | Return fs' => Return fs'
  | Raise _ =>
      match copy2 src real_dst fs with
      | Return fs1 => OS.remove src fs1
      | Raise e => Raise e
      end
  end.

(** [shutil.move(src, dst)] for a source that is a regular file (the client
    refuses directories before it calls [move]): a directory as destination
    receives the file under the source's name, unless that name is taken. *)
Definition move (src dst : Path) (fs : gmap Path node) : result (gmap Path node) :=
  match fs !! src with
  | Some (File c) =>
      if OS.is_dir fs dst then
        let real_dst := (dst ++ [PathLib.name src])%list in
        if OS.exists_ fs real_dst then
          Raise {| exn_class_of := ShutilError;
                   exn_str := "Destination path '" +:+ PathLib.str real_dst
                              +:+ "' already exists" |}
        else rename_or_copy src real_dst c fs
      else rename_or_copy src dst c fs
  | _ => Raise (OS.ENOENT src)
  end.

End Shutil.

(** ** Data model ([models.py]) *)

Inductive ActionType := READ | WRITE | EXECUTE | GIT | ENV.

Module ActionRecord.

Record t := mk {
  action_type : ActionType;
  timestamp : Z;
  path : option string;
  command : option string;
  success : bool;
  error_message : option string;
  user_approved : bool
}.

(** [ActionRecord.create(action_type=..., path=...)] at clock reading [now]. *)
Definition create (now : Z) (ty : ActionType) (p : option string) : t :=
  mk ty now p None true None false.

Definition set_success (b : bool) (a : t) : t :=
  mk (action_type a) (timestamp a) (path a) (command a) b
     (error_message a) (user_approved a).

Definition set_error_message (msg : string) (a : t) : t :=
  mk (action_type a) (timestamp a) (path a) (command a) (success a)
     (Some msg) (user_approved a).

Definition set_user_approved (b : bool) (a : t) : t :=
  mk (action_type a) (timestamp a) (path a) (command a) (success a)
     (error_message a) b.

End ActionRecord.

Module FileInfo.

(** [modified_time], a float read from the OS, is left out. *)
Record t := mk {
  name : string;
  path : string;
  is_directory : bool;
  size : option Z
}.

(** [FileInfo.from_path(path_obj, relative_to=base)]: [stat] raises for a
    missing path; a path outside [base] keeps its absolute form. *)
Definition from_path (p base : Path) (fs : gmap Path node) : result t :=
  match fs !! p with
  | None => Raise (OS.ENOENT p)
  | Some n =>
      let rel_path :=
        match PathLib.relative_to p base with
        | Some r => PathLib.str_rel r
        | None => PathLib.str p
        end in
      Return (mk (PathLib.name p) rel_path (OS.is_dir fs p)
                 (match n with
                  | File c => Some (Z.of_nat (String.length c))
                  | Dir => None
                  end))
  end.

End FileInfo.

(** ** The client ([client.py]) *)

(** A path argument, [Union[str, Path]]. *)
Inductive PathArg :=
| PStr (s : string)
| PObj (p : PathLib.PurePath).

(** The instance attributes of a [TinyFSClient].  [action_history] is a
    reference to a list object in the heap.  [patched_confirmation] is the
    instance attribute that shadows the method [_request_confirmation] when
    a caller has set one (as the unit tests do); [None] is the client as
    shipped. *)
Record TinyFSClient := mkClient {
  workspace_dir : Path;
  auto_confirm : bool;
  history_size : Z;
  action_history : positive;
  patched_confirmation : option (string → string → bool)
}.

(** The client together with the world it runs in: the file system, the
    heap of list objects, the clock and the working directory. *)
Record Machine := mkMachine {
  self : TinyFSClient;
  fs : gmap Path node;
  heap : gmap positive (list ActionRecord.t);
  now : Z;
  cwd : Path
}.

Definition set_fs (fs' : gmap Path node) (m : Machine) : Machine :=
  mkMachine (self m) fs' (heap m) (now m) (cwd m).

Definition set_heap (h : gmap positive (list ActionRecord.t)) (m : Machine) : Machine :=
  mkMachine (self m) (fs m) h (now m) (cwd m).

Definition set_action_history (l : positive) (m : Machine) : Machine :=
  mkMachine (mkClient (workspace_dir (self m)) (auto_confirm (self m))
                      (history_size (self m)) l (patched_confirmation (self m)))
            (fs m) (heap m) (now m) (cwd m).

(** The list object a reference points to. *)
Definition deref (m : Machine) (l : positive) : list ActionRecord.t :=
  default [] (heap m !! l).

(** The current content of [self.action_history]. *)
Definition history (m : Machine) : list ActionRecord.t :=
  deref m (action_history (self m)).

(** Computations that read and change the machine and may raise. *)
Definition M (A : Type) : Type := Machine → result A * Machine.

Definition ret {A} (a : A) : M A := fun m => (Return a, m).

Definition raise {A} (c : exn_class) (msg : string) : M A :=
  fun m => (Raise {| exn_class_of := c; exn_str := msg |}, m).

Definition bind {A B} (c : M A) (k : A → M B) : M B :=
  fun m => match c m with
           | (Return a, m1) => k a m1
           | (Raise e, m1) => (Raise e, m1)
           end.

Notation "x <~ c ;; k" := (bind c (fun x => k))
  (at level 100, c at next level, right associativity).
Notation "c ;;; k" := (bind c (fun _ => k))
  (at level 100, right associativity).

(** A call that changes the file system or raises. *)
Definition os_call (f : gmap Path node → result (gmap Path node)) : M unit :=
  fun m => match f (fs m) with
           | Return fs' => (Return tt, set_fs fs' m)
           | Raise e => (Raise e, m)
           end.

(** A call that only inspects the file system. *)
Definition os_query {A} (f : gmap Path node → A) : M A :=
  fun m => (Return (f (fs m)), m).

(** [l[start:]] with Python's reading of a negative or too large [start];
    note that [l[-0:]] is [l[0:]], the whole list. *)
Definition slice_from {A} (start : Z) (l : list A) : list A :=
  let n := Z.of_nat (List.length l) in
  let i := if start <? 0 then Z.max 0 (start + n) else Z.min start n in
  drop (Z.to_nat i) l.

(** [_record_action]: the append mutates the list object in place; the trim
    builds a new list object and rebinds [self.action_history] to it. *)
Definition _record_action (action : ActionRecord.t) : M unit :=
  fun m =>
    let l := action_history (self m) in
    let appended := (history m ++ [action])%list in
    let m1 := set_heap (<[l := appended]> (heap m)) m in
    if Z.of_nat (List.length appended) >? history_size (self m) then
      let l' := fresh (dom (heap m1)) in
      let trimmed := slice_from (- history_size (self m)) appended in
      (Return tt, set_action_history l' (set_heap (<[l' := trimmed]> (heap m1)) m1))
    else (Return tt, m1).

(** The path a candidate denotes once resolved. *)
Definition resolve_arg (path : PathArg) (m : Machine) : Path :=
  match path with
  | PStr s =>
      if negb (PathLib.isabs s) then
        PathLib.resolve (cwd m)
          (PathLib.joinpath (PathLib.of_path (workspace_dir (self m))) (PathLib.parse s))
      else PathLib.resolve (cwd m) (PathLib.parse s)
  | PObj p => PathLib.resolve (cwd m) p
  end.

(** [str(path)] of a candidate, as an f-string renders it. *)
Definition arg_str (path : PathArg) : string :=
  match path with
  | PStr s => s
  | PObj p => PathLib.str_pure p
  end.

Definition _validate_path (path : PathArg) (must_exist : bool) : M Path :=
  fun m =>
    let target := resolve_arg path m in
    if negb (PyStr.startswith (PathLib.str target)
                              (PathLib.str (workspace_dir (self m)))) then
      raise PathValidationError
            ("Path '" +:+ arg_str path +:+ "' is outside workspace '"
             +:+ PathLib.str (workspace_dir (self m)) +:+ "'") m
    else if must_exist && negb (OS.exists_ (fs m) target) then
      raise FileNotFoundError ("Path not found: " +:+ PathLib.str target) m
    else ret target m.

(** The method as the class defines it: both branches answer [True]. *)
Definition _request_confirmation (operation details : string) : M bool :=
  fun m =>
    if auto_confirm (self m) then ret true m
    else ret true m.

(** The call [self._request_confirmation(operation, details)]: attribute
    lookup finds an instance attribute before the method of the class. *)
Definition call_request_confirmation (operation details : string) : M bool :=
  fun m =>
    match patched_confirmation (self m) with
    | Some f => ret (f operation details) m
    | None => _request_confirmation operation details m
    end.

(** [self.action_history.copy()]: a new list object with the same entries;
    the result is the reference to it. *)
Definition get_history : M positive :=
  fun m =>
    let l' := fresh (dom (heap m)) in
    (Return l', set_heap (<[l' := history m]> (heap m)) m).

(** [str(p.relative_to(self.workspace_dir))]. *)
Definition rel_to_workspace (p : Path) : M string :=
  fun m =>
    match PathLib.relative_to p (workspace_dir (self m)) with
    | Some r => ret (PathLib.str_rel r) m
    | None =>
        raise ValueError
              ("'" +:+ PathLib.str p +:+ "' is not in the subpath of '"
               +:+ PathLib.str (workspace_dir (self m)) +:+ "'") m
    end.

Definition new_action (ty : ActionType) (p : string) : M ActionRecord.t :=
  fun m => ret (ActionRecord.create (now m) ty (Some p)) m.

(** The [try: ... except Exception as e: ... raise; finally:
    self._record_action(action)] frame shared by the operations. *)
Definition try_recording {A} (action : ActionRecord.t) (body : M A) : M A :=
  fun m =>
    match body m with
    | (Return a, m1) =>
        (Return a, snd (_record_action (ActionRecord.set_success true action) m1))
    | (Raise e, m1) =>
        (Raise e,
         snd (_record_action
                (ActionRecord.set_error_message (exn_str e)
                   (ActionRecord.set_success false action)) m1))
    end.

(** The [if confirm and not self.auto_confirm:] block shared by the
    mutating operations; it returns the action with [user_approved] set. *)
Definition confirmation_block (confirm : bool) (operation details cancelled : string)
    (action : ActionRecord.t) : M ActionRecord.t :=
  fun m =>
    if confirm && negb (auto_confirm (self m)) then
      (confirmed <~ call_request_confirmation operation details ;;
       let action := ActionRecord.set_user_approved confirmed action in
       if negb confirmed then
         (_record_action
            (ActionRecord.set_error_message "Operation cancelled by user"
               (ActionRecord.set_success false action)) ;;;
          raise OperationCancelledError cancelled)
       else ret action) m
    else ret action m.

Definition NL : string := String OS.LF EmptyString.

Definition read_file (path : PathArg) : M string :=
  validated_path <~ _validate_path path true ;;
  is_dir <~ os_query (fun fs => OS.is_dir fs validated_path) ;;
  if is_dir : bool then
    raise IsADirectoryError
          ("Cannot read directory as file: " +:+ PathLib.str validated_path)
  else
    rel_path <~ rel_to_workspace validated_path ;;
    action <~ new_action READ rel_path ;;
    try_recording action
      (fun m => match OS.read_text validated_path (fs m) with
                | Return c => (Return c, m)
                | Raise e => (Raise e, m)
                end).

Definition write_file (path : PathArg) (content : string) (confirm : bool) : M bool :=
  validated_path <~ _validate_path path false ;;
  os_call (OS.mkdir_parents (PathLib.parent validated_path)) ;;;
  rel_path <~ rel_to_workspace validated_path ;;
  action <~ new_action WRITE rel_path ;;
  let preview :=
    if (100 <? String.length content)%nat
    then PyStr.take 100 content +:+ "..." else content in
  let confirmation_details :=
    "Writing " +:+ PyStr.of_nat (String.length content) +:+ " bytes to "
    +:+ rel_path +:+ NL +:+ "Preview: " +:+ preview in
  action <~ confirmation_block confirm "Write File" confirmation_details
              ("Write to " +:+ rel_path +:+ " cancelled by user") action ;;
  try_recording action
    (os_call (OS.write_data validated_path content) ;;; ret true).

Definition list_directory (path : PathArg) : M (list FileInfo.t) :=
  target_dir <~ _validate_path path true ;;
  is_dir <~ os_query (fun fs => OS.is_dir fs target_dir) ;;
  if negb is_dir then
    raise NotADirectoryError ("Not a directory: " +:+ PathLib.str target_dir)
  else
    rel_path <~ rel_to_workspace target_dir ;;
    action <~ new_action READ rel_path ;;
    try_recording action
      (fun m =>
         let fix collect (items : list Path) : result (list FileInfo.t) :=
           match items with
           | [] => Return []
           | item :: rest =>
               match FileInfo.from_path item (workspace_dir (self m)) (fs m) with
               | Raise e => Raise e
               | Return file_info =>
                   match collect rest with
                   | Raise e => Raise e
                   | Return results => Return (file_info :: results)
                   end
               end
           end in
         (collect (OS.iterdir target_dir (fs m)), m)).

Definition create_directory (path : PathArg) (confirm : bool) : M bool :=
  validated_path <~ _validate_path path false ;;
  rel_path <~ rel_to_workspace validated_path ;;
  action <~ new_action WRITE rel_path ;;
  action <~ confirmation_block confirm "Create Directory"
              ("Creating directory: " +:+ rel_path)
              "Directory creation cancelled by user" action ;;
  try_recording action
    (os_call (OS.mkdir_parents validated_path) ;;; ret true).

Definition delete_file (path : PathArg) (confirm : bool) : M bool :=
  validated_path <~ _validate_path path true ;;
  is_dir <~ os_query (fun fs => OS.is_dir fs validated_path) ;;
  if is_dir : bool then
    raise IsADirectoryError
          ("Cannot delete directory as file: " +:+ PathLib.str validated_path)
  else
    rel_path <~ rel_to_workspace validated_path ;;
    action <~ new_action WRITE rel_path ;;
    action <~ confirmation_block confirm "Delete File"
                ("Deleting file: " +:+ rel_path)
                "File deletion cancelled by user" action ;;
    try_recording action
      (os_call (OS.remove validated_path) ;;; ret true).

Definition move_file (source destination : PathArg) (confirm : bool) : M bool :=
  src_path <~ _validate_path source true ;;
  dest_path <~ _validate_path destination false ;;
  is_dir <~ os_query (fun fs => OS.is_dir fs src_path) ;;
  if is_dir : bool then
    raise IsADirectoryError
          ("Use move_directory for directories: " +:+ PathLib.str src_path)
  else
    rel_src <~ rel_to_workspace src_path ;;
    rel_dest <~ rel_to_workspace dest_path ;;
    action <~ new_action WRITE (rel_src +:+ " -> " +:+ rel_dest) ;;
    action <~ confirmation_block confirm "Move File"
                ("Moving file: " +:+ rel_src +:+ " -> " +:+ rel_dest)
                "File move cancelled by user" action ;;
    try_recording action
      (os_call (OS.mkdir_parents (PathLib.parent dest_path)) ;;;
       os_call (Shutil.move src_path dest_path) ;;;
       ret true).

Definition copy_file (source destination : PathArg) (confirm : bool) : M bool :=
  src_path <~ _validate_path source true ;;
  dest_path <~ _validate_path destination false ;;
  is_dir <~ os_query (fun fs => OS.is_dir fs src_path) ;;
  if is_dir : bool then
    raise IsADirectoryError
          ("Use copy_directory for directories: " +:+ PathLib.str src_path)
  else
    rel_src <~ rel_to_workspace src_path ;;
    rel_dest <~ rel_to_workspace dest_path ;;
    action <~ new_action WRITE (rel_src +:+ " -> " +:+ rel_dest) ;;
    action <~ confirmation_block confirm "Copy File"
                ("Copying file: " +:+ rel_src +:+ " -> " +:+ rel_dest)
                "File copy cancelled by user" action ;;
    try_recording action
      (os_call (OS.mkdir_parents (PathLib.parent dest_path)) ;;;
       os_call (Shutil.copy2 src_path dest_path) ;;;
       ret true).

(** [try: body except (c1, c2, ...): return fallback]. *)
Definition try_except {A} (body : M A) (classes : list exn_class) (fallback : A) : M A :=
  fun m =>
    match body m with
    | (Return a, m1) => (Return a, m1)
    | (Raise e, m1) =>
        if existsb (isinstance e) classes then (Return fallback, m1)
        else (Raise e, m1)
    end.

Definition file_exists (path : PathArg) : M bool :=
  try_except
    (validated_path <~ _validate_path path false ;;
     os_query (fun fs => OS.exists_ fs validated_path && OS.is_file fs validated_path))
    [SecurityError] false.

Definition directory_exists (path : PathArg) : M bool :=
  try_except
    (validated_path <~ _validate_path path false ;;
     os_query (fun fs => OS.exists_ fs validated_path && OS.is_dir fs validated_path))
    [SecurityError] false.

Definition get_file_info (path : PathArg) : M (option FileInfo.t) :=
  try_except
    (validated_path <~ _validate_path path true ;;
     fun m => match FileInfo.from_path validated_path (workspace_dir (self m)) (fs m) with
              | Return info => (Return (Some info), m)
              | Raise e => (Raise e, m)
              end)
    [SecurityError; FileNotFoundError] None.

(** [TinyFSClient.__init__]: it fills the attributes of the new object
    [self], binds [action_history] to a new empty list and creates the
    workspace directory when it is missing. *)
Definition __init__ (workspace : PathArg) (auto : bool) (size : Z) : M unit :=
  fun m =>
    let ws := match workspace with
              | PStr s => PathLib.resolve (cwd m) (PathLib.parse s)
              | PObj p => PathLib.resolve (cwd m) p
              end in
    let l := fresh (dom (heap m)) in
    let m1 := mkMachine (mkClient ws auto size l None) (fs m)
                        (<[l := []]> (heap m)) (now m) (cwd m) in
    if negb (OS.exists_ (fs m1) ws) then os_call (OS.mkdir_parents ws) m1
    else ret tt m1.

(** ** The command line ([cli.py]) *)

Module CLI.

Inductive EntityType := file | directory.

(** The parsed sub-command with its arguments; [no_command] is an absent
    sub-command. *)
Inductive Command :=
| read (path : string)
| write (path : string) (content : option string)
| list_ (path : string) (json : bool)
| mkdir (path : string)
| delete (path : string)
| move (source destination : string)
| copy (source destination : string)
| exists_ (path : string) (type : option EntityType)
| info (path : string)
| no_command.

Record Args := mkArgs {
  workspace : string;
  auto_confirm : bool;
  verbose : bool;
  command : Command;
  stdin : string
}.

(** The body of the [try] block: the client call of the sub-command and
    the exit code that the block returns when the call does not raise. *)
Definition run (args : Args) : M Z :=
  match command args with
  | read path => read_file (PStr path) ;;; ret 0
  | write path content =>
      let content := match content with
                     | Some c => c
                     | None => stdin args
                     end in
      write_file (PStr path) content true ;;; ret 0
  | list_ path _ => list_directory (PStr path) ;;; ret 0
  | mkdir path => create_directory (PStr path) true ;;; ret 0
  | delete path => delete_file (PStr path) true ;;; ret 0
  | move source destination =>
      move_file (PStr source) (PStr destination) true ;;; ret 0
  | copy source destination =>
      copy_file (PStr source) (PStr destination) true ;;; ret 0
  | exists_ path type =>
      found <~ match type with
                | Some file => file_exists (PStr path)
                | Some directory => directory_exists (PStr path)
                | None =>
                    f <~ file_exists (PStr path) ;;
                    if f : bool then ret true else directory_exists (PStr path)
                end ;;
      if found : bool then ret 0 else ret 1
  | info path =>
      file_info <~ get_file_info (PStr path) ;;
      match file_info with
      | None => ret 1
      | Some _ => ret 0
      end
  | no_command => ret 1
  end.

(** The [except] clauses of [execute_command], in their order. *)
Definition handlers : list (exn_class * Z) :=
  [ (FileNotFoundError, 1); (SecurityError, 2); (OperationCancelledError, 3);
    (TinyFSError, 4); (Exception, 5) ].

(** The first clause whose class the exception is an instance of. *)
Fixpoint handle (hs : list (exn_class * Z)) (e : exn) : option Z :=
  match hs with
  | [] => None
  | (c, code) :: rest => if isinstance e c then Some code else handle rest e
  end.

(** [try: body except ...] with the clauses [hs]. *)
Definition try_handlers (body : M Z) (hs : list (exn_class * Z)) : M Z :=
  fun m =>
    match body m with
    | (Return code, m1) => (Return code, m1)
    | (Raise e, m1) =>
        match handle hs e with
        | Some code => (Return code, m1)
        | None => (Raise e, m1)
        end
    end.

(** The client of [execute_command(args)], built outside the [try] block on
    [Path(os.path.abspath(args.workspace))] with the default history size. *)
Definition make_client (args : Args) : M unit :=
  workspace_path <~ (fun m => ret (PathLib.of_path
                       (PathLib.resolve (cwd m) (PathLib.parse (workspace args)))) m) ;;
  __init__ (PObj workspace_path) (auto_confirm args) 100.

Definition execute_command (args : Args) : M Z :=
  make_client args ;;;
  try_handlers (run args) handlers.

End CLI.

(** ** The shell commands ([shell_integration.py]) *)

Module Shell.

(** [args[i]], where the code has tested the length before. *)
Definition item (i : nat) (args : list string) : string := nth i args EmptyString.

(** [do_fs(arg)], as far as the client is concerned: the sub-command named
    by the first word is run on the words that follow, and whatever it
    raises is caught.  What [do_fs] prints is left out, the terminal is
    not part of the machine; so are the pure steps between the client call
    and the output (the sorting of a listing, the rendering of a time). *)
Definition do_fs (arg : string) : M unit :=
  let args := PyStr.split arg in
  if (List.length args =? 0)%nat then ret tt
  else
    let cmd := PyStr.lower (item 0 args) in
    try_except
      (if String.eqb cmd "help" then ret tt
       else if String.eqb cmd "read" then
         if (List.length args <? 2)%nat then ret tt
         else
           let path := item 1 args in
           read_file (PStr path) ;;; ret tt
       else if String.eqb cmd "write" then
         if (List.length args <? 3)%nat then ret tt
         else
           let path := item 1 args in
           let content := PyStr.join " " (drop 2 args) in
           write_file (PStr path) content true ;;; ret tt
       else if String.eqb cmd "list" then
         let path := if (1 <? List.length args)%nat then item 1 args else "." in
         list_directory (PStr path) ;;; ret tt
       else if String.eqb cmd "mkdir" then
         if (List.length args <? 2)%nat then ret tt
         else
           let path := item 1 args in
           create_directory (PStr path) true ;;; ret tt
       else if String.eqb cmd "delete" then
         if (List.length args <? 2)%nat then ret tt
         else
           let path := item 1 args in
           delete_file (PStr path) true ;;; ret tt
       else if String.eqb cmd "move" then
         if (List.length args <? 3)%nat then ret tt
         else
           let source := item 1 args in
           let destination := item 2 args in
           move_file (PStr source) (PStr destination) true ;;; ret tt
       else if String.eqb cmd "copy" then
         if (List.length args <? 3)%nat then ret tt
         else
           let source := item 1 args in
           let destination := item 2 args in
           copy_file (PStr source) (PStr destination) true ;;; ret tt
       else if String.eqb cmd "exists" then
         if (List.length args <? 2)%nat then ret tt
         else
           let path := item 1 args in
           let check_type :=
             if (2 <? List.length args)%nat then
               let type_arg := item 2 args in
               if PyStr.startswith type_arg "--type=" then
                 Some (item 1 (PyStr.split_on "=" type_arg))
               else None
             else None in
           (if bool_decide (check_type = Some "file") then file_exists (PStr path)
            else if bool_decide (check_type = Some "directory") then
              directory_exists (PStr path)
            else
              f <~ file_exists (PStr path) ;;
              if f : bool then ret true else directory_exists (PStr path)) ;;;
           ret tt
       else if String.eqb cmd "info" then
         if (List.length args <? 2)%nat then ret tt
         else
           let path := item 1 args in
           get_file_info (PStr path) ;;; ret tt
       else ret tt)
      [Exception] tt.

End Shell.

(** * Vocabulary of the statements *)

(** What [_record_action] leaves of a list that has just been appended to. *)
Definition trim {A} (size : Z) (l : list A) : list A :=
  if Z.of_nat (List.length l) >? size then slice_from (- size) l else l.

(** The last [n] entries of a list, oldest first. *)
Definition last_n {A} (n : nat) (l : list A) : list A :=
  drop (List.length l - n) l.

(** Recording a sequence of actions one after the other. *)
Fixpoint record_all (actions : list ActionRecord.t) : M unit :=
  match actions with
  | [] => ret tt
  | a :: rest => _record_action a ;;; record_all rest
  end.

(** The state in which every reference of the client points into the heap. *)
Definition history_allocated (m : Machine) : Prop :=
  is_Some (heap m !! action_history (self m)).

(** The record that the [try ... finally] frame stores for an outcome. *)
Definition outcome_record {A} (action : ActionRecord.t) (r : result A) : ActionRecord.t :=
  match r with
  | Return _ => ActionRecord.set_success true action
  | Raise e =>
      ActionRecord.set_error_message (exn_str e)
        (ActionRecord.set_success false action)
  end.

(** The record that a declined confirmation stores. *)
Definition cancelled_record (action : ActionRecord.t) : ActionRecord.t :=
  ActionRecord.set_error_message "Operation cancelled by user"
    (ActionRecord.set_success false
       (ActionRecord.set_user_approved false action)).

(** The client as shipped: nothing shadows [_request_confirmation]. *)
Definition shipped (m : Machine) : Prop := patched_confirmation (self m) = None.

(** Whatever the call raises is an [OSError]. *)
Definition raises_os_errors {X} (f : gmap Path node → result X) : Prop :=
  ∀ fs e, f fs = Raise e → isinstance e OSError = true.

(** The call did not end with [OperationCancelledError]. *)
Definition never_cancelled {A} (out : result A * Machine) : Prop :=
  ∀ e, fst out = Raise e → exn_class_of e ≠ OperationCancelledError.

(** A client whose confirmation decision is "no": auto-confirm is off and
    the confirmation attribute answers [False] to every request. *)
Definition declining (m : Machine) : Prop :=
  auto_confirm (self m) = false
  ∧ ∃ f, patched_confirmation (self m) = Some f ∧ ∀ op d, f op d = false.

(** Whether the call returned rather than raised. *)
Definition returned {A} (r : result A) : bool :=
  match r with Return _ => true | Raise _ => false end.

(** The call appended exactly one record, whose [success] field tells the
    outcome of the call. *)
Definition recorded {A} (m : Machine) (out : result A * Machine) : Prop :=
  ∃ a, history (snd out) = trim (history_size (self m)) (history m ++ [a])%list
       ∧ ActionRecord.success a = returned (fst out).

(** The call raised [e] and left the audit log as it was. *)
Definition raised_unrecorded {A} (m : Machine) (e : exn) (out : result A * Machine) : Prop :=
  fst out = Raise e ∧ history (snd out) = history m ∧ self (snd out) = self m.

(** The statements of each mutating operation that come before its
    [ActionRecord] is created: path validation, the directory test and the
    workspace-relative name (and, in [write_file], the parent directories). *)
Definition write_file_checks (path : PathArg) : M (Path * string) :=
  validated_path <~ _validate_path path false ;;
  os_call (OS.mkdir_parents (PathLib.parent validated_path)) ;;;
  rel_path <~ rel_to_workspace validated_path ;;
  ret (validated_path, rel_path).

Definition create_directory_checks (path : PathArg) : M (Path * string) :=
  validated_path <~ _validate_path path false ;;
  rel_path <~ rel_to_workspace validated_path ;;
  ret (validated_path, rel_path).

Definition delete_file_checks (path : PathArg) : M (Path * string) :=
  validated_path <~ _validate_path path true ;;
  is_dir <~ os_query (fun fs => OS.is_dir fs validated_path) ;;
  if is_dir : bool then
    raise IsADirectoryError
          ("Cannot delete directory as file: " +:+ PathLib.str validated_path)
  else
    rel_path <~ rel_to_workspace validated_path ;;
    ret (validated_path, rel_path).

(** [move_file] and [copy_file] differ in the text of the message only. *)
Definition transfer_checks (hint : string) (source destination : PathArg)
  : M (Path * Path * string * string) :=
  src_path <~ _validate_path source true ;;
  dest_path <~ _validate_path destination false ;;
  is_dir <~ os_query (fun fs => OS.is_dir fs src_path) ;;
  if is_dir : bool then
    raise IsADirectoryError (hint +:+ PathLib.str src_path)
  else
    rel_src <~ rel_to_workspace src_path ;;
    rel_dest <~ rel_to_workspace dest_path ;;
    ret (src_path, dest_path, rel_src, rel_dest).

(** A call that does not get past the gate, stage by stage: when a check
    before the gate raises, the call raises the same exception and the
    machine is untouched; when the checks pass, the call is cancelled at
    the gate, it raises [OperationCancelledError], and the file system is
    as before. *)
Definition refused_without_effect {A C} (checks : M C) (op : M A) (m : Machine) : Prop :=
  match fst (checks m) with
  | Raise e => op m = (Raise e, m)
  | Return _ =>
      ∃ e, fst (op m) = Raise e
           ∧ exn_class_of e = OperationCancelledError
           ∧ fs (snd (op m)) = fs m
  end.

(** One record per call, stage by stage: none when the checks raise,
    exactly one otherwise. *)
Definition audited_after_checks {A C} (checks : M C) (op : M A) (m : Machine) : Prop :=
  match fst (checks m) with
  | Raise e => raised_unrecorded m e (op m)
  | Return _ => recorded m (op m)
  end.

(** [fs'] is [fs] with some missing directories along path [p] created:
    whatever is new is a directory at [p] or at a place above [p]. *)
Definition grown_along (p : Path) (fs fs' : gmap Path node) : Prop :=
  ∀ q, fs' !! q = fs !! q
       ∨ (fs !! q = None ∧ fs' !! q = Some Dir ∧ q ≠ [] ∧ q `prefix_of` p).

(** Whether a text holds a carriage return. *)
Fixpoint has_cr (s : string) : bool :=
  match s with
  | EmptyString => false
  | String c rest => Ascii.eqb c OS.CR || has_cr rest
  end.

(** The containment test of the code: the text of the resolved candidate
    starts with the text of the workspace root. *)
Definition passes_prefix_test (path : PathArg) (m : Machine) : bool :=
  PyStr.startswith (PathLib.str (resolve_arg path m))
                   (PathLib.str (workspace_dir (self m))).

(** Containment by components: the resolved candidate is the workspace
    root or lies below it. *)
Definition inside_workspace (path : PathArg) (m : Machine) : Prop :=
  is_Some (PathLib.relative_to (resolve_arg path m) (workspace_dir (self m))).

(** The call raised [PathValidationError] and changed nothing. *)
Definition rejected {A} (m : Machine) (out : result A * Machine) : Prop :=
  ∃ e, out = (Raise e, m) ∧ exn_class_of e = PathValidationError.

(** The limits of the operating system on a name: a text handed to it holds
    no NUL byte ([Path.resolve()] raises [ValueError] on one), a component
    has at most [NAME_MAX] bytes and a path fewer than [PATH_MAX]
    ([Path.exists()] raises [OSError] beyond them). *)
Definition NUL : ascii := "000"%char.

Fixpoint has_nul (s : string) : bool :=
  match s with
  | EmptyString => false
  | String c rest => Ascii.eqb c NUL || has_nul rest
  end.

Definition NAME_MAX : nat := 255.
Definition PATH_MAX : nat := 4096.

Definition within_limits (p : Path) : bool :=
  forallb (fun w => (String.length w <=? NAME_MAX)%nat) p
  && (String.length (PathLib.str p) <? PATH_MAX)%nat.

(** A candidate that the operating system takes: its text holds no NUL
    byte, and the path it denotes is within the limits. *)
Definition well_named (path : PathArg) (m : Machine) : Prop :=
  has_nul (arg_str path) = false ∧ within_limits (resolve_arg path m) = true.

(** A transfer whose destination is refused: the call raised and changed
    nothing; the source is validated first, so the exception is
    [FileNotFoundError] when the source passes the prefix test and is
    missing, and [PathValidationError] in every other case. *)
Definition refused_at_destination {A} (source : PathArg) (m : Machine)
    (out : result A * Machine) : Prop :=
  ∃ e, out = (Raise e, m)
       ∧ exn_class_of e
         = if passes_prefix_test source m
              && negb (OS.exists_ (fs m) (resolve_arg source m))
           then FileNotFoundError else PathValidationError.

(** A file system with the workspace [/a/ws] and nothing else. *)
Definition bare_fs : gmap Path node :=
  <[ ["a"; "ws"] := Dir ]> (<[ ["a"] := Dir ]> {[ [] := Dir ]}).

(** The same with a regular file [/a/ws/f] and a directory [/a/ws/d]. *)
Definition stocked_fs : gmap Path node :=
  <[ ["a"; "ws"; "d"] := Dir ]> (<[ ["a"; "ws"; "f"] := File "hi" ]> bare_fs).

(** The same with a sibling directory [/a/ws-evil] holding a file [x]. *)
Definition sibling_fs : gmap Path node :=
  <[ ["a"; "ws-evil"; "x"] := File "secret" ]> (<[ ["a"; "ws-evil"] := Dir ]> bare_fs).

(** A client on [/a/ws] with the given capacity and confirmation
    attribute, its history empty, its working directory [/]. *)
Definition client_on (fs : gmap Path node) (size : Z)
    (patch : option (string → string → bool)) : Machine :=
  mkMachine (mkClient ["a"; "ws"] false size 1%positive patch)
            fs {[ 1%positive := [] ]} 0 [].

(** A confirmation that declines every request, as
    [patch.object(client, '_request_confirmation', return_value=False)]. *)
Definition say_no (operation details : string) : bool := false.

(** A record to put in the log. *)
Definition sample_action (name : string) : ActionRecord.t :=
  ActionRecord.create 0 WRITE (Some name).

(** The text [a], carriage return, [b]. *)
Definition text_with_cr : string := String "a" (String OS.CR "b").

(** The exit-code scheme, class by class: 1 for not found, 2 for the
    security errors, 3 for a cancelled operation, 4 for the other TinyFS
    errors, 5 for anything else. *)
Definition exit_code_scheme (c : exn_class) : Z :=
  match c with
  | FileNotFoundError => 1
  | SecurityError | PathValidationError | OperationNotAllowedError => 2
  | OperationCancelledError => 3
  | TinyFSError | SandboxError | CommandExecutionError => 4
  | Exception | OSError | FileExistsError | IsADirectoryError
  | NotADirectoryError | ValueError | ShutilError | SameFileError => 5
  end.

(** The commands that can end with exit code 1 without an exception: a
    probe that finds nothing, and a missing sub-command. *)
Definition may_report_absent (c : CLI.Command) : bool :=
  match c with
  | CLI.exists_ _ _ | CLI.info _ | CLI.no_command => true
  | _ => false
  end.

(** The entries of the list that [get_history()] returns. *)
Definition get_history_entries (m : Machine) : list ActionRecord.t :=
  match get_history m with
  | (Return l, m') => deref m' l
  | (Raise _, _) => []
  end.

(** The caller replaces the content of the list object at [l] by [l']:
    any sequence of appends, removals and reorderings ends in such a state. *)
Definition mutate_list (l : positive) (l' : list ActionRecord.t) (m : Machine) : Machine :=
  set_heap (<[l := l']> (heap m)) m.

(** The log after recording [actions] on a log [h] of capacity [size]. *)
Definition log_after (size : Z) (h actions : list ActionRecord.t) : list ActionRecord.t :=
  fold_left (fun h a => trim size (h ++ [a])%list) actions h.

(** The class of the exception a result carries, if any. *)
Definition raised_class {A} (r : result A) : option exn_class :=
  match r with
  | Return _ => None
  | Raise e => Some (exn_class_of e)
  end.

(** The attributes that no operation changes. *)
Definition same_settings (m m' : Machine) : Prop :=
  workspace_dir (self m') = workspace_dir (self m)
  ∧ auto_confirm (self m') = auto_confirm (self m)
  ∧ history_size (self m') = history_size (self m)
  ∧ patched_confirmation (self m') = patched_confirmation (self m)
  ∧ cwd m' = cwd m.

(** A well-formed file system: the root is a directory, and every other
    entry lies in a directory. *)
Definition well_formed (fs : gmap Path node) : Prop :=
  fs !! [] = Some Dir
  ∧ ∀ p n, fs !! p = Some n → p ≠ [] → fs !! PathLib.parent p = Some Dir.

(** What a reading operation may do to the machine: no file and no setting
    changes, and the log stays or grows by one [READ] record. *)
Definition read_only_effect (m m' : Machine) : Prop :=
  fs m' = fs m
  ∧ same_settings m m'
  ∧ (history m' = history m
     ∨ ∃ a, history m' = trim (history_size (self m)) (history m ++ [a])%list
            ∧ ActionRecord.action_type a = READ).

(** The loop of [list_directory] over the entries of the directory. *)
Definition collect_infos (base : Path) (fs : gmap Path node)
  : list Path → result (list FileInfo.t) :=
  fix collect (items : list Path) : result (list FileInfo.t) :=
    match items with
    | [] => Return []
    | item :: rest =>
        match FileInfo.from_path item base fs with
        | Raise e => Raise e
        | Return file_info =>
            match collect rest with
            | Raise e => Raise e
            | Return results => Return (file_info :: results)
            end
        end
    end.

(** [info] describes the entry at [q]: its name, whether it is a directory,
    and a size exactly when it is a regular file. *)
Definition describes (fs : gmap Path node) (q : Path) (info : FileInfo.t) : Prop :=
  FileInfo.name info = PathLib.name q
  ∧ FileInfo.is_directory info = OS.is_dir fs q
  ∧ (FileInfo.size info = None ↔ OS.is_dir fs q = true).

(** [q] is an entry directly below [p]. *)
Definition child_of (fs : gmap Path node) (p q : Path) : Prop :=
  is_Some (fs !! q) ∧ q ≠ [] ∧ PathLib.parent q = p.

(** A component that a resolved path can hold: not empty, neither [.] nor
    [..], and without a slash. *)
Fixpoint no_slash (w : string) : bool :=
  match w with
  | EmptyString => true
  | String c rest => negb (Ascii.eqb c "/") && no_slash rest
  end.

Definition proper_part (w : string) : bool :=
  PathLib.keep_part w && negb (String.eqb w "..") && no_slash w.

Definition proper_path (p : Path) : Prop := Forall (fun w => proper_part w = true) p.

(** The directory that [__init__] takes as workspace:
    [Path(workspace_dir).resolve()]. *)
Definition workspace_of (workspace : PathArg) (m : Machine) : Path :=
  match workspace with
  | PStr s => PathLib.resolve (cwd m) (PathLib.parse s)
  | PObj p => PathLib.resolve (cwd m) p
  end.

(** The exceptions that the operations raise on a client as shipped: the
    errors of the OS layer, the refusal of a path, and the [ValueError] of
    [relative_to]. *)
Definition plain_failure (e : exn) : Prop :=
  isinstance e OSError = true
  ∨ exn_class_of e = PathValidationError
  ∨ exn_class_of e = ValueError.

(** Whether the call ended with [OperationCancelledError]. *)
Definition is_cancelled {A} (r : result A) : bool :=
  match r with
  | Return _ => false
  | Raise e => bool_decide (exn_class_of e = OperationCancelledError)
  end.

(** The record of a mutating call that was made at clock reading [now m]
    on the entry called [name], with the outcome [r]: the message is that
    of the exception, or the fixed text of a cancellation, and the user
    counts as having approved when a confirmation was due and the call was
    not cancelled. *)
Definition audit_record {A} (m : Machine) (name : string) (confirm : bool)
    (r : result A) : ActionRecord.t :=
  ActionRecord.mk WRITE (now m) (Some name) None (returned r)
    match r with
    | Return _ => None
    | Raise e =>
        Some (if is_cancelled r then "Operation cancelled by user" else exn_str e)
    end
    (confirm && negb (auto_confirm (self m)) && negb (is_cancelled r)).

(** The call logged the record of its outcome under [name]. *)
Definition logs {A} (m : Machine) (name : string) (confirm : bool)
    (out : result A * Machine) : Prop :=
  history (snd out)
  = trim (history_size (self m)) (history m ++ [audit_record m name confirm (fst out)])%list.

(** Away from the paths [targets], [fs'] holds what [fs] holds, and
    directories that [fs] did not have. *)
Definition keeps_other_entries (targets : list Path) (fs fs' : gmap Path node) : Prop :=
  ∀ q, q ∉ targets → fs' !! q = fs !! q ∨ (fs !! q = None ∧ fs' !! q = Some Dir).

(** Whether a line given to [do_fs] names a mutating sub-command with the
    words it needs: [mkdir] and [delete] with a path, [write], [move] and
    [copy] with two more words. *)
Definition names_mutation (arg : string) : bool :=
  let args := PyStr.split arg in
  let cmd := PyStr.lower (Shell.item 0 args) in
  (String.eqb cmd "mkdir" || String.eqb cmd "delete") && (2 <=? List.length args)%nat
  || (String.eqb cmd "write" || String.eqb cmd "move" || String.eqb cmd "copy")
     && (3 <=? List.length args)%nat.

(** Some regular file of [fs] holds the text [c]. *)
Definition holds_content (fs : gmap Path node) (c : string) : Prop :=
  ∃ q, fs !! q = Some (File c).

(** Every text that a regular file of [fs'] holds is held by a file of
    [fs] or is one of the texts [P]. *)
Definition no_new_content_but (P : string → Prop) (fs fs' : gmap Path node) : Prop :=
  ∀ q c, fs' !! q = Some (File c) → holds_content fs c ∨ P c.

(** A text that is its words joined by single blanks. *)
Definition single_spaced (c : string) : Prop :=
  PyStr.join " " (PyStr.split c) = c.

(** A word: a text that is not empty and holds no whitespace. *)
Fixpoint no_space (w : string) : bool :=
  match w with
  | EmptyString => true
  | String c rest => negb (PyStr.isspace c) && no_space rest
  end.

Definition is_word (w : string) : Prop := w ≠ EmptyString ∧ no_space w = true.





(** * Properties *)

(** ** The model at work *)

Example split_on_ex : PyStr.split_on "/" "/a//b/./c" = [""; "a"; ""; "b"; "."; "c"].
Proof. reflexivity. Qed.

Example resolve_traversal :
PathLib.resolve [] (PathLib.joinpath (PathLib.of_path ["tmp"; "ws"])
                        (PathLib.parse "../../etc/passwd")) = ["etc"; "passwd"].
Proof. reflexivity. Qed.

Example mkdir_below_file_ex :
  OS.mkdir_parents ["a"; "ws"; "f"; "x"; "y"] stocked_fs
  = Raise (OS.ENOTDIR ["a"; "ws"; "f"; "x"; "y"]).
Proof. vm_compute. reflexivity. Qed.

Example str_ex : PathLib.str ["a"; "ws-evil"; "x"] = "/a/ws-evil/x".
Proof. reflexivity. Qed.

Example of_nat_ex : PyStr.of_nat 120 = "120".
Proof. reflexivity. Qed.

(** ** The audit log *)

Section AuditLog.

Implicit Types (m : Machine) (a : ActionRecord.t) (l : list ActionRecord.t).

Lemma history_record_action a m :
  history (snd (_record_action a m))
  = trim (history_size (self m)) (history m ++ [a])%list.
Proof.
  unfold _record_action, trim.
  destruct (Z.of_nat _ >? _); cbn; unfold history, deref; cbn;
    by rewrite lookup_insert_eq.
Qed.

Lemma record_action_returns a m : fst (_record_action a m) = Return tt.
Proof. unfold _record_action. by destruct (Z.of_nat _ >? _). Qed.

Lemma record_action_frame a m :
  let m' := snd (_record_action a m) in
  fs m' = fs m ∧ now m' = now m ∧ cwd m' = cwd m
  ∧ workspace_dir (self m') = workspace_dir (self m)
  ∧ auto_confirm (self m') = auto_confirm (self m)
  ∧ history_size (self m') = history_size (self m)
  ∧ patched_confirmation (self m') = patched_confirmation (self m).
Proof. unfold _record_action. by destruct (Z.of_nat _ >? _). Qed.

Lemma record_action_allocated a m : history_allocated (snd (_record_action a m)).
Proof.
  unfold _record_action, history_allocated.
  destruct (Z.of_nat _ >? _); cbn; rewrite lookup_insert_eq; eauto.
Qed.

Lemma trim_last_n {A} (c : nat) (l : list A) :
  (0 < c)%nat → trim (Z.of_nat c) l = last_n c l.
Proof.
  intros Hc. unfold trim, last_n, slice_from.
  destruct (Z.gtb_spec (Z.of_nat (List.length l)) (Z.of_nat c)) as [Hgt|Hle].
  - destruct (Z.ltb_spec (- Z.of_nat c) 0); [|lia].
    f_equal. lia.
  - replace (List.length l - c)%nat with 0%nat by lia. done.
Qed.

Lemma last_n_length {A} (c : nat) (l : list A) :
  List.length (last_n c l) = Nat.min (List.length l) c.
Proof. unfold last_n. rewrite length_drop. lia. Qed.

Lemma last_n_snoc {A} (c : nat) (l : list A) (x : A) :
  last_n c (last_n c l ++ [x]) = last_n c (l ++ [x]).
Proof.
  destruct (decide (c = 0)%nat) as [->|Hc].
  { unfold last_n. rewrite !Nat.sub_0_r, (drop_all l). cbn.
    by rewrite ?Nat.sub_0_r, ?drop_all. }
  unfold last_n. rewrite !length_app, length_drop. cbn [List.length].
  destruct (decide (List.length l ≤ c)%nat) as [Hle|Hgt].
  - replace (List.length l - c)%nat with 0%nat by lia. cbn [drop].
    f_equal. lia.
  - rewrite (drop_app_le l) by lia.
    rewrite (drop_app_le (drop _ l)) by (rewrite length_drop; lia).
    rewrite drop_drop. do 2 f_equal. lia.
Qed.

Lemma record_all_returns actions m : fst (record_all actions m) = Return tt.
Proof.
  revert m. induction actions as [|a rest IH]; intros m; [done|].
  cbn. unfold bind. pose proof (record_action_returns a m) as E.
  destruct (_record_action a m) as [r m1]. cbn in E. subst r. apply IH.
Qed.

Lemma record_all_size actions m :
  history_size (self (snd (record_all actions m))) = history_size (self m).
Proof.
  revert m. induction actions as [|a rest IH]; intros m; [done|].
  cbn. unfold bind. pose proof (record_action_returns a m) as E.
  pose proof (record_action_frame a m) as F.
  destruct (_record_action a m) as [r m1]. cbn in E, F. subst r.
  rewrite IH. tauto.
Qed.

Lemma last_n_short {A} (c : nat) (l : list A) :
  (List.length l ≤ c)%nat → last_n c l = l.
Proof.
  intros H. unfold last_n. by replace (_ - c)%nat with 0%nat by lia.
Qed.

Lemma last_n_app {A} (c : nat) (l k : list A) :
  last_n c (last_n c l ++ k) = last_n c (l ++ k).
Proof.
  induction k as [|x k IH] using rev_ind.
  - rewrite !app_nil_r. apply last_n_short. rewrite last_n_length. lia.
  - rewrite !app_assoc, <- (last_n_snoc c (_ ++ k)), IH.
    apply last_n_snoc.
Qed.

(** With a positive capacity the log holds the last [c] recorded actions. *)
Lemma record_all_history (c : nat) actions m :
  (0 < c)%nat → history_size (self m) = Z.of_nat c →
  (List.length (history m) ≤ c)%nat →
  history (snd (record_all actions m)) = last_n c (history m ++ actions)%list.
Proof.
  intros Hc. revert m. induction actions as [|a rest IH]; intros m Hsz Hlen.
  - cbn. rewrite app_nil_r. by rewrite last_n_short.
  - cbn. unfold bind. pose proof (record_action_returns a m) as E.
    pose proof (record_action_frame a m) as F.
    pose proof (history_record_action a m) as H.
    destruct (_record_action a m) as [r m1]. cbn in E, F, H. subst r.
    rewrite Hsz, trim_last_n in H by done.
    rewrite IH.
    + by rewrite H, last_n_app, <- app_assoc.
    + destruct F as (_&_&_&_&_&->&_). done.
    + rewrite H, last_n_length. lia.
Qed.

End AuditLog.

(** ** Running the operations step by step *)

Section Steps.

Context {A B : Type}.
Implicit Types (m : Machine) (e : exn).

Lemma bind_inv (c : M A) (k : A → M B) m r m' :
  bind c k m = (r, m') →
  (∃ a m1, c m = (Return a, m1) ∧ k a m1 = (r, m'))
  ∨ (∃ e, c m = (Raise e, m') ∧ r = Raise e).
Proof.
  unfold bind. destruct (c m) as [[a|e] m1]; intros H.
  - left. eauto.
  - right. inversion H. eauto.
Qed.

Lemma ret_inv (a : A) m r m' : ret a m = (r, m') → r = Return a ∧ m' = m.
Proof. unfold ret. by inversion 1. Qed.

Lemma raise_inv c msg m (r : result A) m' :
  raise c msg m = (r, m') →
  r = Raise {| exn_class_of := c; exn_str := msg |} ∧ m' = m.
Proof. unfold raise. by inversion 1. Qed.

Lemma os_query_inv (f : gmap Path node → A) m r m' :
  os_query f m = (r, m') → r = Return (f (fs m)) ∧ m' = m.
Proof. unfold os_query. by inversion 1. Qed.

Lemma try_recording_inv action (body : M A) m r m' :
  try_recording action body m = (r, m') →
  ∃ m1, body m = (r, m1) ∧ m' = snd (_record_action (outcome_record action r) m1).
Proof.
  unfold try_recording. destruct (body m) as [[a|e] m1]; inversion 1; eauto.
Qed.

Lemma try_except_inv (body : M A) classes fallback m r m' :
  try_except body classes fallback m = (r, m') →
  ∃ r0, body m = (r0, m')
        ∧ r = match r0 with
              | Return a => Return a
              | Raise e => if existsb (isinstance e) classes
                           then Return fallback else Raise e
              end.
Proof.
  unfold try_except. destruct (body m) as [[a|e] m1].
  - inversion 1. eauto.
  - destruct (existsb _ _) eqn:E; inversion 1; subst;
      exists (Raise e); by rewrite E.
Qed.

End Steps.

Section Primitives.

Implicit Types (m : Machine) (e : exn) (p : Path).

Lemma os_call_inv f m r m' :
  os_call f m = (r, m') →
  match r with
  | Return _ => ∃ fs', f (fs m) = Return fs' ∧ m' = set_fs fs' m
  | Raise e => f (fs m) = Raise e ∧ m' = m
  end.
Proof.
  unfold os_call. destruct (f (fs m)) as [fs'|e]; inversion 1; eauto.
Qed.

Lemma validate_path_inv path must_exist m r m' :
  _validate_path path must_exist m = (r, m') →
  m' = m ∧
  match r with
  | Return p =>
      p = resolve_arg path m
      ∧ PyStr.startswith (PathLib.str p) (PathLib.str (workspace_dir (self m))) = true
      ∧ (must_exist = true → OS.exists_ (fs m) p = true)
  | Raise e =>
      (e = {| exn_class_of := PathValidationError;
              exn_str := "Path '" +:+ arg_str path +:+ "' is outside workspace '"
                         +:+ PathLib.str (workspace_dir (self m)) +:+ "'" |}
       ∧ PyStr.startswith (PathLib.str (resolve_arg path m))
                          (PathLib.str (workspace_dir (self m))) = false)
      ∨ (e = {| exn_class_of := FileNotFoundError;
                exn_str := "Path not found: " +:+ PathLib.str (resolve_arg path m) |}
         ∧ must_exist = true
         ∧ PyStr.startswith (PathLib.str (resolve_arg path m))
                            (PathLib.str (workspace_dir (self m))) = true
         ∧ OS.exists_ (fs m) (resolve_arg path m) = false)
  end.
Proof.
  unfold _validate_path, raise, ret.
  destruct (PyStr.startswith _ _) eqn:Hpre; cbn [negb].
  - destruct must_exist; cbn [andb].
    + destruct (OS.exists_ _ _) eqn:Hex; cbn [negb]; inversion 1; subst; cbn;
        auto 10.
    + inversion 1; subst. split; [done|]. split_and!; [done|done|]. discriminate.
  - inversion 1; subst; cbn; auto.
Qed.

Lemma rel_to_workspace_inv p m r m' :
  rel_to_workspace p m = (r, m') →
  m' = m ∧
  match r with
  | Return s => ∃ rel, PathLib.relative_to p (workspace_dir (self m)) = Some rel
                       ∧ s = PathLib.str_rel rel
  | Raise e =>
      e = {| exn_class_of := ValueError;
             exn_str := "'" +:+ PathLib.str p +:+ "' is not in the subpath of '"
                        +:+ PathLib.str (workspace_dir (self m)) +:+ "'" |}
      ∧ PathLib.relative_to p (workspace_dir (self m)) = None
  end.
Proof.
  unfold rel_to_workspace, raise, ret.
  destruct (PathLib.relative_to _ _) eqn:E; inversion 1; subst; cbn; eauto.
Qed.

Lemma new_action_inv ty s m r m' :
  new_action ty s m = (r, m') →
  r = Return (ActionRecord.create (now m) ty (Some s)) ∧ m' = m.
Proof. unfold new_action, ret. by inversion 1. Qed.

Lemma request_confirmation_true operation details m :
  _request_confirmation operation details m = (Return true, m).
Proof. unfold _request_confirmation, ret. by destruct (auto_confirm _). Qed.

Lemma confirmation_block_inv confirm operation details cancelled action m r m' :
  confirmation_block confirm operation details cancelled action m = (r, m') →
  match r with
  | Return action' =>
      m' = m ∧
      action' = (if confirm && negb (auto_confirm (self m))
                 then ActionRecord.set_user_approved true action else action)
      ∧ (confirm = true → auto_confirm (self m) = false →
         ∀ f, patched_confirmation (self m) = Some f → f operation details = true)
  | Raise e =>
      e = {| exn_class_of := OperationCancelledError; exn_str := cancelled |}
      ∧ confirm = true ∧ auto_confirm (self m) = false
      ∧ (∃ f, patched_confirmation (self m) = Some f ∧ f operation details = false)
      ∧ m' = snd (_record_action (cancelled_record action) m)
  end.
Proof.
  unfold confirmation_block.
  destruct (confirm && negb (auto_confirm (self m))) eqn:Hc.
  - apply andb_prop in Hc as [-> Hauto]. apply negb_true_iff in Hauto.
    unfold bind, call_request_confirmation.
    destruct (patched_confirmation (self m)) as [f|] eqn:Hp.
    + unfold ret at 1. destruct (f operation details) eqn:Hf; cbn [negb].
      * inversion 1; subst. split_and!; [done..|]. intros _ _ g [= <-]. done.
      * pose proof (record_action_returns
                      (ActionRecord.set_error_message "Operation cancelled by user"
                         (ActionRecord.set_success false
                            (ActionRecord.set_user_approved false action))) m) as E.
        destruct (_record_action _ m) as [r0 m0] eqn:Hrec. cbn in E. subst r0.
        unfold raise. inversion 1; subst.
        split_and!; eauto.
    + rewrite request_confirmation_true. cbn. inversion 1; subst. done.
  - unfold ret. inversion 1; subst. split_and!; [done..|].
    intros -> Hauto. rewrite Hauto in Hc. done.
Qed.

End Primitives.

(** Symbolic execution of one operation: [exec H] splits an equation
    [c m = (r, m')] along the binds of [c] and replaces every primitive
    step by what it did. *)
Ltac exec_prim H :=
  lazymatch type of H with
  | ret _ _ = _ => apply ret_inv in H as [? ?]
  | raise _ _ _ = _ => apply raise_inv in H as [? ?]
  | os_query _ _ = _ => apply os_query_inv in H as [? ?]
  | new_action _ _ _ = _ => apply new_action_inv in H as [? ?]
  | _validate_path _ _ _ = _ => apply validate_path_inv in H as [? H]
  | rel_to_workspace _ _ = _ => apply rel_to_workspace_inv in H as [? H]
  | os_call _ _ = _ => apply os_call_inv in H
  | confirmation_block _ _ _ _ _ _ = _ => apply confirmation_block_inv in H
  | try_recording _ _ _ = _ =>
      let m1 := fresh "m" in
      let Hb := fresh "Hbody" in
      apply try_recording_inv in H as (m1 & Hb & H)
  | _ => idtac
  end.

Ltac exec H :=
  lazymatch type of H with
  | bind _ _ _ = _ =>
      let a := fresh "a" in
      let m1 := fresh "m" in
      let e := fresh "e" in
      let Hc := fresh "Hstep" in
      apply bind_inv in H as [(a & m1 & Hc & H) | (e & Hc & ?)];
      [ exec_prim Hc; cbv beta in H | exec_prim Hc ]
  | _ => exec_prim H
  end.

Ltac tidy :=
  repeat match goal with
         | H : _ ∧ _ |- _ => destruct H
         | H : ∃ _, _ |- _ => destruct H
         | H : _ ∨ _ |- _ => destruct H
         | H : (_, _) = (_, _) |- _ => injection H as ? ?
         | H : true = true → _ |- _ => specialize (H eq_refl)
         | H : false = true → _ |- _ => clear H
         end;
  simplify_eq; cbn [self fs heap now cwd set_fs workspace_dir auto_confirm
                    history_size patched_confirmation] in *.

(** [run] executes every operation equation among the hypotheses to the end. *)
Ltac run :=
  repeat (match goal with
          | H : bind _ _ _ = _ |- _ => exec H
          | H : ret _ _ = _ |- _ => exec_prim H
          | H : raise _ _ _ = _ |- _ => exec_prim H
          | H : os_query _ _ = _ |- _ => exec_prim H
          | H : new_action _ _ _ = _ |- _ => exec_prim H
          | H : _validate_path _ _ _ = _ |- _ => exec_prim H
          | H : rel_to_workspace _ _ = _ |- _ => exec_prim H
          | H : os_call _ _ = _ |- _ => exec_prim H
          | H : confirmation_block _ _ _ _ _ _ = _ |- _ => exec_prim H
          | H : try_recording _ _ _ = _ |- _ => exec_prim H
          | H : (if ?b then _ else _) _ = _ |- _ => destruct b eqn:?
          end; tidy).

(** ** Exceptions of the OS layer *)

Section OSErrors.

Implicit Types (p : Path) (fs : gmap Path node).

Lemma walk_error_cases fs seen rest err :
  OS.walk_error fs seen rest = Some err → err = OS.ENOENT ∨ err = OS.ENOTDIR.
Proof.
  revert seen. induction rest as [|w rest IH]; intros seen; cbn;
    destruct (fs !! seen) as [[|]|]; intros; simplify_eq; eauto.
Qed.

Lemma parent_error_cases fs p e :
  OS.parent_error fs p = Some e → e = OS.ENOENT p ∨ e = OS.ENOTDIR p.
Proof.
  unfold OS.parent_error. destruct (OS.walk_error _ _ _) as [err|] eqn:E; [|done].
  intros [= <-]. apply walk_error_cases in E as [->| ->]; auto.
Qed.

Lemma walk_error_None fs seen rest :
  OS.walk_error fs seen rest = None → fs !! (seen ++ rest)%list = Some Dir.
Proof.
  revert seen. induction rest as [|w rest IH]; intros seen; cbn;
    destruct (fs !! seen) as [[|]|] eqn:Hs; intros; simplify_eq.
  - by rewrite app_nil_r.
  - rewrite (assoc_L _ seen [w] rest : seen ++ w :: rest = (seen ++ [w]) ++ rest)%list.
    by apply IH.
Qed.

Lemma parent_error_None fs p :
  OS.parent_error fs p = None → fs !! PathLib.parent p = Some Dir.
Proof.
  unfold OS.parent_error. destruct (OS.walk_error _ _ _) eqn:E; [done|].
  intros _. by apply walk_error_None in E.
Qed.

Lemma parent_error_raises fs p e :
  OS.parent_error fs p = Some e → isinstance e OSError = true.
Proof. by intros [-> | ->]%parent_error_cases. Qed.

Lemma mkdir_raises p : raises_os_errors (OS.mkdir p).
Proof.
  intros fs e. unfold OS.mkdir.
  destruct (OS.parent_error fs p) eqn:Hpar.
  - intros [= <-]. by eapply parent_error_raises.
  - repeat case_match; inversion 1; by subst.
Qed.

Lemma mkdir_exist_ok_raises p : raises_os_errors (OS.mkdir_exist_ok p).
Proof.
  intros fs e. unfold OS.mkdir_exist_ok.
  destruct (OS.mkdir p fs) eqn:E; [done|].
  apply mkdir_raises in E. repeat case_match; inversion 1; by subst.
Qed.

Lemma mkdir_parents_from_raises d p : raises_os_errors (OS.mkdir_parents_from d p).
Proof.
  revert p. induction d as [|d IH]; intros p fs e; cbn;
    destruct (OS.mkdir p fs) eqn:E; try done; apply mkdir_raises in E.
  - repeat case_match; inversion 1; by subst.
  - destruct (isinstance _ FileNotFoundError).
    + destruct (OS.mkdir_parents_from d _ fs) eqn:E1.
      * apply mkdir_exist_ok_raises.
      * inversion 1; subst. by apply IH in E1.
    + case_match; inversion 1; by subst.
Qed.

Lemma mkdir_parents_raises p : raises_os_errors (OS.mkdir_parents p).
Proof. apply mkdir_parents_from_raises. Qed.

Lemma write_data_raises p c : raises_os_errors (OS.write_data p c).
Proof.
  intros fs e. unfold OS.write_data.
  destruct (OS.parent_error fs p) eqn:Hpar.
  - intros [= <-]. by eapply parent_error_raises.
  - repeat case_match; inversion 1; by subst.
Qed.

Lemma remove_raises p : raises_os_errors (OS.remove p).
Proof.
  intros fs e. unfold OS.remove. repeat case_match; inversion 1; by subst.
Qed.

Lemma read_text_raises p : raises_os_errors (OS.read_text p).
Proof.
  intros fs e. unfold OS.read_text. repeat case_match; inversion 1; by subst.
Qed.

Lemma copy2_raises src dst : raises_os_errors (Shutil.copy2 src dst).
Proof.
  intros fs e. unfold Shutil.copy2.
  repeat case_match; try (inversion 1; by subst); apply write_data_raises.
Qed.

Lemma move_raises src dst : raises_os_errors (Shutil.move src dst).
Proof.
  intros fs e. unfold Shutil.move, Shutil.rename_or_copy.
  repeat case_match; try (inversion 1; by subst);
    first [ apply remove_raises
          | inversion 1; subst; eapply copy2_raises; eassumption ].
Qed.

Lemma from_path_raises p base : raises_os_errors (FileInfo.from_path p base).
Proof.
  intros fs e. unfold FileInfo.from_path. case_match; inversion 1; by subst.
Qed.

Lemma os_error_not_cancelled e :
  isinstance e OSError = true → exn_class_of e ≠ OperationCancelledError.
Proof. unfold isinstance. intros H E. by rewrite E in H. Qed.

End OSErrors.

(** ** The confirmation gate *)

Ltac not_cancelled :=
  match goal with
  | H : exn_class_of ?e = _ |- exn_class_of ?e ≠ _ => by rewrite H
  | |- exn_class_of {| exn_class_of := _ |} ≠ _ => done
  | Hs : shipped _, H : patched_confirmation _ = Some _ |- _ =>
      unfold shipped in Hs; cbn in Hs; congruence
  | H : _ = Raise ?e |- exn_class_of ?e ≠ _ =>
      apply os_error_not_cancelled;
      first [ eapply mkdir_parents_raises, H | eapply write_data_raises, H
            | eapply remove_raises, H | eapply move_raises, H
            | eapply copy2_raises, H ]
  end.

Section Gate.

Implicit Types (m : Machine) (path source destination : PathArg).

Lemma write_file_never_cancelled path content confirm m :
  shipped m → never_cancelled (write_file path content confirm m).
Proof.
  intros Hs e He. destruct (write_file _ _ _ m) as [r m'] eqn:E.
  cbn in He. subst r. unfold write_file in E. run; not_cancelled.
Qed.

Lemma create_directory_never_cancelled path confirm m :
  shipped m → never_cancelled (create_directory path confirm m).
Proof.
  intros Hs e He. destruct (create_directory _ _ m) as [r m'] eqn:E.
  cbn in He. subst r. unfold create_directory in E. run; not_cancelled.
Qed.

Lemma delete_file_never_cancelled path confirm m :
  shipped m → never_cancelled (delete_file path confirm m).
Proof.
  intros Hs e He. destruct (delete_file _ _ m) as [r m'] eqn:E.
  cbn in He. subst r. unfold delete_file in E. run; not_cancelled.
Qed.

Lemma move_file_never_cancelled source destination confirm m :
  shipped m → never_cancelled (move_file source destination confirm m).
Proof.
  intros Hs e He. destruct (move_file _ _ _ m) as [r m'] eqn:E.
  cbn in He. subst r. unfold move_file in E. run; not_cancelled.
Qed.

Lemma copy_file_never_cancelled source destination confirm m :
  shipped m → never_cancelled (copy_file source destination confirm m).
Proof.
  intros Hs e He. destruct (copy_file _ _ _ m) as [r m'] eqn:E.
  cbn in He. subst r. unfold copy_file in E. run; not_cancelled.
Qed.

End Gate.

Ltac declined :=
  match goal with
  | Hd : declining _ |- _ =>
      let f := fresh "f" in
      let Hf := fresh "Hf" in
      destruct Hd as (? & f & ? & Hf);
      repeat match goal with
             | H : _ → ∀ g, _ = Some g → g _ _ = true |- _ =>
                 specialize (H ltac:(assumption) f ltac:(assumption));
                 rewrite Hf in H; discriminate
             end
  end.

Lemma record_action_fs a m : fs (snd (_record_action a m)) = fs m.
Proof. apply record_action_frame. Qed.

Ltac refused :=
  cbn [fst snd];
  first [ by declined
        | congruence
        | eexists; cbn [fst snd]; split_and!;
          [ reflexivity | done | by rewrite ?record_action_fs ] ].

Section Declined.

Implicit Types (m : Machine) (path source destination : PathArg).

Lemma create_directory_declined path m :
  declining m →
  refused_without_effect (create_directory_checks path)
    (create_directory path true) m.
Proof.
  intros Hd. unfold refused_without_effect.
  destruct (create_directory_checks path m) as [rc mc] eqn:Ec.
  destruct (create_directory path true m) as [r m'] eqn:E.
  unfold create_directory_checks in Ec. unfold create_directory in E.
  run; refused.
Qed.

Lemma delete_file_declined path m :
  declining m →
  refused_without_effect (delete_file_checks path) (delete_file path true) m.
Proof.
  intros Hd. unfold refused_without_effect.
  destruct (delete_file_checks path m) as [rc mc] eqn:Ec.
  destruct (delete_file path true m) as [r m'] eqn:E.
  unfold delete_file_checks in Ec. unfold delete_file in E.
  run; refused.
Qed.

Lemma move_file_declined source destination m :
  declining m →
  refused_without_effect
    (transfer_checks "Use move_directory for directories: " source destination)
    (move_file source destination true) m.
Proof.
  intros Hd. unfold refused_without_effect.
  destruct (transfer_checks _ source destination m) as [rc mc] eqn:Ec.
  destruct (move_file source destination true m) as [r m'] eqn:E.
  unfold transfer_checks in Ec. unfold move_file in E.
  run; refused.
Qed.

Lemma copy_file_declined source destination m :
  declining m →
  refused_without_effect
    (transfer_checks "Use copy_directory for directories: " source destination)
    (copy_file source destination true) m.
Proof.
  intros Hd. unfold refused_without_effect.
  destruct (transfer_checks _ source destination m) as [rc mc] eqn:Ec.
  destruct (copy_file source destination true m) as [r m'] eqn:E.
  unfold transfer_checks in Ec. unfold copy_file in E.
  run; refused.
Qed.

(** [write_file] too raises when the decision is "no", but only after it
    has created the missing parent directories. *)
Lemma write_file_declined path content m :
  declining m → ∃ e, fst (write_file path content true m) = Raise e.
Proof.
  intros Hd. destruct (write_file _ _ _ m) as [r m'] eqn:E.
  unfold write_file in E. run; first [by declined | by eexists].
Qed.

End Declined.

(** ** One audit record per call *)

Lemma history_set_fs fs' m : history (set_fs fs' m) = history m.
Proof. done. Qed.

Ltac audited :=
  first
    [ congruence
    | split_and!; first [ done | congruence ]
    | eexists; cbn [fst snd returned]; rewrite history_record_action;
      cbn [self fs heap now cwd set_fs workspace_dir auto_confirm
           history_size patched_confirmation]; rewrite ?history_set_fs;
      split; [reflexivity | by repeat case_match ] ].

Section Audit.

Implicit Types (m : Machine) (path source destination : PathArg).

Lemma write_file_audited path content confirm m :
  audited_after_checks (write_file_checks path) (write_file path content confirm) m.
Proof.
  unfold audited_after_checks.
  destruct (write_file_checks path m) as [rc mc] eqn:Ec.
  destruct (write_file path content confirm m) as [r m'] eqn:E.
  unfold write_file_checks in Ec. unfold write_file in E.
  run; cbn [fst snd]; unfold raised_unrecorded; cbn [fst snd]; audited.
Qed.

Lemma create_directory_audited path confirm m :
  audited_after_checks (create_directory_checks path) (create_directory path confirm) m.
Proof.
  unfold audited_after_checks.
  destruct (create_directory_checks path m) as [rc mc] eqn:Ec.
  destruct (create_directory path confirm m) as [r m'] eqn:E.
  unfold create_directory_checks in Ec. unfold create_directory in E.
  run; cbn [fst snd]; unfold raised_unrecorded; cbn [fst snd]; audited.
Qed.

Lemma delete_file_audited path confirm m :
  audited_after_checks (delete_file_checks path) (delete_file path confirm) m.
Proof.
  unfold audited_after_checks.
  destruct (delete_file_checks path m) as [rc mc] eqn:Ec.
  destruct (delete_file path confirm m) as [r m'] eqn:E.
  unfold delete_file_checks in Ec. unfold delete_file in E.
  run; cbn [fst snd]; unfold raised_unrecorded; cbn [fst snd]; audited.
Qed.

Lemma move_file_audited source destination confirm m :
  audited_after_checks
    (transfer_checks "Use move_directory for directories: " source destination)
    (move_file source destination confirm) m.
Proof.
  unfold audited_after_checks.
  destruct (transfer_checks _ source destination m) as [rc mc] eqn:Ec.
  destruct (move_file source destination confirm m) as [r m'] eqn:E.
  unfold transfer_checks in Ec. unfold move_file in E.
  run; cbn [fst snd]; unfold raised_unrecorded; cbn [fst snd]; audited.
Qed.

Lemma copy_file_audited source destination confirm m :
  audited_after_checks
    (transfer_checks "Use copy_directory for directories: " source destination)
    (copy_file source destination confirm) m.
Proof.
  unfold audited_after_checks.
  destruct (transfer_checks _ source destination m) as [rc mc] eqn:Ec.
  destruct (copy_file source destination confirm m) as [r m'] eqn:E.
  unfold transfer_checks in Ec. unfold copy_file in E.
  run; cbn [fst snd]; unfold raised_unrecorded; cbn [fst snd]; audited.
Qed.

End Audit.

(** ** What the operations leave in place *)

Section Frames.

Implicit Types (m : Machine) (p q : Path) (fs : gmap Path node).

Lemma record_action_ws a m :
  workspace_dir (self (snd (_record_action a m))) = workspace_dir (self m).
Proof. apply record_action_frame. Qed.

Lemma record_action_cwd a m : cwd (snd (_record_action a m)) = cwd m.
Proof. apply record_action_frame. Qed.

Lemma resolve_arg_frame path m m' :
  cwd m' = cwd m → workspace_dir (self m') = workspace_dir (self m) →
  resolve_arg path m' = resolve_arg path m.
Proof. unfold resolve_arg. by intros -> ->. Qed.

Lemma grown_along_refl p fs : grown_along p fs fs.
Proof. intros q. by left. Qed.

Lemma grown_along_trans p p' fs fs1 fs2 :
  p `prefix_of` p' →
  grown_along p fs fs1 → grown_along p' fs1 fs2 → grown_along p' fs fs2.
Proof.
  intros Hpre H1 H2 q. destruct (H1 q) as [E1|(E1&E1'&Hq&Hl)], (H2 q) as [E2|(E2&E2'&Hq'&Hl')].
  - left. congruence.
  - right. split_and!; [congruence|done..].
  - right. split_and!; [done|congruence|done|by etrans].
  - congruence.
Qed.

Lemma mkdir_inv p fs fs' :
  OS.mkdir p fs = Return fs' →
  fs' = <[p := Dir]> fs ∧ fs !! p = None ∧ p ≠ [].
Proof.
  unfold OS.mkdir, OS.exists_.
  destruct (OS.parent_error fs p) eqn:Hpar; [done|].
  apply parent_error_None in Hpar.
  destruct (fs !! p) eqn:Hp; inversion 1; subst.
  split_and!; [done..|]. intros ->. cbn in Hpar. congruence.
Qed.

Lemma mkdir_grows p fs fs' : OS.mkdir p fs = Return fs' → grown_along p fs fs'.
Proof.
  intros (-> & Hp & Hne)%mkdir_inv q. destruct (decide (q = p)) as [->|Hq].
  - right. by rewrite lookup_insert_eq.
  - left. by rewrite lookup_insert_ne.
Qed.

Lemma mkdir_exist_ok_grows p fs fs' :
  OS.mkdir_exist_ok p fs = Return fs' → grown_along p fs fs'.
Proof.
  unfold OS.mkdir_exist_ok. destruct (OS.mkdir p fs) eqn:E.
  - inversion 1; subst. by apply mkdir_grows.
  - repeat case_match; inversion 1; subst. apply grown_along_refl.
Qed.

Lemma parent_prefix p : PathLib.parent p `prefix_of` p.
Proof.
  unfold PathLib.parent. induction p as [|w [|w' p] IH]; cbn in *.
  - done.
  - apply prefix_nil.
  - by apply prefix_cons.
Qed.

Lemma parent_length p : (List.length (PathLib.parent p) ≤ List.length p)%nat.
Proof. apply prefix_length, parent_prefix. Qed.

Lemma parent_shorter p : p ≠ [] → (List.length (PathLib.parent p) < List.length p)%nat.
Proof.
  unfold PathLib.parent. induction p as [|w [|w' p] IH]; cbn in *; [done|lia|].
  intros _. specialize (IH ltac:(done)). lia.
Qed.

Lemma mkdir_parents_from_grows d p fs fs' :
  OS.mkdir_parents_from d p fs = Return fs' → grown_along p fs fs'.
Proof.
  revert p fs'. induction d as [|d IH]; intros p fs'; cbn;
    destruct (OS.mkdir p fs) eqn:E; try (inversion 1; subst; by apply mkdir_grows).
  - repeat case_match; inversion 1; subst. apply grown_along_refl.
  - destruct (isinstance _ FileNotFoundError).
    + destruct (OS.mkdir_parents_from d _ fs) eqn:E1; [|done].
      intros H. eapply grown_along_trans;
        [apply parent_prefix | by apply IH | by apply mkdir_exist_ok_grows].
    + case_match; inversion 1; subst. apply grown_along_refl.
Qed.

Lemma mkdir_parents_grows p fs fs' :
  OS.mkdir_parents p fs = Return fs' → grown_along p fs fs'.
Proof. apply mkdir_parents_from_grows. Qed.

(** Entries that exist survive. *)
Lemma grown_along_keeps p fs fs' q n :
  grown_along p fs fs' → fs !! q = Some n → fs' !! q = Some n.
Proof. intros H Hq. destruct (H q) as [E|(E&_)]; congruence. Qed.

(** Making the parents of [q] does not make [q]. *)
Lemma grown_along_parent q fs fs' :
  grown_along (PathLib.parent q) fs fs' → fs' !! q = fs !! q.
Proof.
  intros H. destruct (H q) as [E|(_&_&Hne&Hl)]; [done|].
  apply parent_shorter in Hne. apply prefix_length in Hl. lia.
Qed.

End Frames.

(** ** Writing then reading *)

Section RoundTrip.

Implicit Types (m : Machine) (path : PathArg).

Lemma universal_newlines_id s : has_cr s = false → OS.universal_newlines s = s.
Proof.
  induction s as [|c rest IH]; [done|]. cbn.
  destruct (Ascii.eqb c OS.CR); [done|]. cbn. intros H. by rewrite IH.
Qed.

(** What a successful [write_file] has done. *)
Lemma write_file_success path content confirm m m1 :
  write_file path content confirm m = (Return true, m1) →
  let p := resolve_arg path m in
  PyStr.startswith (PathLib.str p) (PathLib.str (workspace_dir (self m))) = true
  ∧ is_Some (PathLib.relative_to p (workspace_dir (self m)))
  ∧ cwd m1 = cwd m
  ∧ workspace_dir (self m1) = workspace_dir (self m)
  ∧ ∃ fs1, grown_along (PathLib.parent p) (fs m) fs1
           ∧ fs m1 = <[p := File content]> fs1.
Proof.
  intros E. unfold write_file in E. run.
  rewrite record_action_cwd, record_action_ws, record_action_fs. cbn.
  split_and!; [done|eauto|done|done|].
  match goal with
  | H : OS.write_data _ _ _ = Return _ |- _ =>
      unfold OS.write_data in H; repeat case_match; simplify_eq
  end; eexists; (split; [by eapply mkdir_parents_grows|done]).
Qed.

(** Reading a path that holds a regular file returns its text as decoded. *)
Lemma read_file_of_file path m c :
  let p := resolve_arg path m in
  PyStr.startswith (PathLib.str p) (PathLib.str (workspace_dir (self m))) = true →
  is_Some (PathLib.relative_to p (workspace_dir (self m))) →
  fs m !! p = Some (File c) →
  fst (read_file path m) = Return (OS.universal_newlines c).
Proof.
  intros p Hpre [rel Hrel] Hp. subst p.
  destruct (read_file path m) as [r m'] eqn:E. unfold read_file in E.
  run; cbn [fst]; unfold OS.exists_, OS.is_dir, OS.read_text in *;
    repeat match goal with
           | H : context [fs m !! _] |- _ => rewrite Hp in H
           end; congruence.
Qed.

End RoundTrip.

(** ** Copying and moving *)

Section Transfer.

Implicit Types (m : Machine) (source destination : PathArg) (fs : gmap Path node).

(** [copy2] onto a path that is not a directory. *)
Lemma copy2_plain src dst c fs fs' :
  fs !! src = Some (File c) → OS.is_dir fs dst = false →
  Shutil.copy2 src dst fs = Return fs' →
  src ≠ dst ∧ fs' = <[dst := File c]> fs.
Proof.
  intros Hsrc Hdir. unfold Shutil.copy2, OS.exists_, OS.write_data.
  rewrite Hdir, Hsrc. case_bool_decide; cbn; [done|].
  repeat case_match; inversion 1; by subst.
Qed.

(** [move] onto a path that is not a directory. *)
Lemma move_plain src dst c fs fs' :
  fs !! src = Some (File c) → OS.is_dir fs dst = false →
  Shutil.move src dst fs = Return fs' →
  (src = dst ∧ fs' = fs) ∨ (src ≠ dst ∧ fs' = <[dst := File c]> (delete src fs)).
Proof.
  intros Hsrc Hdir. unfold Shutil.move, Shutil.rename_or_copy, OS.rename_file.
  rewrite Hsrc, Hdir.
  destruct (OS.parent_error fs dst) eqn:Hpar.
  - unfold Shutil.copy2, OS.write_data, OS.exists_. rewrite Hdir, Hsrc, Hpar.
    by case_bool_decide.
  - case_decide; inversion 1; subst; auto.
Qed.

Lemma copy_file_success source destination confirm m m1 c :
  let src := resolve_arg source m in
  let dst := resolve_arg destination m in
  fs m !! src = Some (File c) → OS.is_dir (fs m) dst = false →
  copy_file source destination confirm m = (Return true, m1) →
  fs m1 !! src = Some (File c) ∧ fs m1 !! dst = Some (File c).
Proof.
  intros src dst Hsrc Hdir E. subst src dst. unfold copy_file in E. run.
  rewrite record_action_fs. cbn.
  match goal with
  | Hg : OS.mkdir_parents _ _ = Return ?fs1, Hc : Shutil.copy2 _ _ ?fs1 = Return _ |- _ =>
      apply mkdir_parents_grows in Hg;
      apply (copy2_plain _ _ c) in Hc as [Hne ->];
      [ | by eapply grown_along_keeps
        | unfold OS.is_dir in *; by rewrite (grown_along_parent _ _ _ Hg) ]
  end.
  rewrite lookup_insert_ne, lookup_insert_eq by done.
  split; [by eapply grown_along_keeps|done].
Qed.

Lemma move_file_success source destination confirm m m1 c :
  let src := resolve_arg source m in
  let dst := resolve_arg destination m in
  fs m !! src = Some (File c) → OS.is_dir (fs m) dst = false → src ≠ dst →
  move_file source destination confirm m = (Return true, m1) →
  fs m1 !! src = None ∧ fs m1 !! dst = Some (File c).
Proof.
  intros src dst Hsrc Hdir Hne E. subst src dst. unfold move_file in E. run.
  rewrite record_action_fs. cbn.
  match goal with
  | Hg : OS.mkdir_parents _ _ = Return ?fs1, Hc : Shutil.move _ _ ?fs1 = Return _ |- _ =>
      apply mkdir_parents_grows in Hg;
      apply (move_plain _ _ c) in Hc as [[? _]| [_ ->]];
      [ done | | by eapply grown_along_keeps
        | unfold OS.is_dir in *; by rewrite (grown_along_parent _ _ _ Hg) ]
  end.
  by rewrite lookup_insert_ne, lookup_delete_eq, lookup_insert_eq.
Qed.

End Transfer.

(** ** Probing and refusing *)

Ltac reject :=
  first [ congruence | eexists; split; [reflexivity|done] ].

Section Probes.

Implicit Types (m : Machine) (path source destination : PathArg).

Lemma file_exists_returns path m :
  ∃ b, file_exists path m = (Return b, m).
Proof.
  destruct (file_exists path m) as [r m'] eqn:E. unfold file_exists in E.
  apply try_except_inv in E as (r0 & E & ->). run; eauto.
Qed.

Lemma directory_exists_returns path m :
  ∃ b, directory_exists path m = (Return b, m).
Proof.
  destruct (directory_exists path m) as [r m'] eqn:E. unfold directory_exists in E.
  apply try_except_inv in E as (r0 & E & ->). run; eauto.
Qed.

Lemma get_file_info_returns path m :
  ∃ info, get_file_info path m = (Return info, m).
Proof.
  destruct (get_file_info path m) as [r m'] eqn:E. unfold get_file_info in E.
  apply try_except_inv in E as (r0 & E & ->). run; eauto.
  unfold FileInfo.from_path, OS.exists_ in *. repeat case_match; simplify_eq; eauto.
Qed.

(** A candidate that fails the prefix test is reported absent. *)
Lemma probes_outside_prefix path m :
  passes_prefix_test path m = false →
  file_exists path m = (Return false, m)
  ∧ directory_exists path m = (Return false, m)
  ∧ get_file_info path m = (Return None, m).
Proof.
  unfold passes_prefix_test. intros Hpre. split_and!.
  - destruct (file_exists path m) as [r m'] eqn:E. unfold file_exists in E.
    apply try_except_inv in E as (r0 & E & ->). run; first [congruence | reflexivity].
  - destruct (directory_exists path m) as [r m'] eqn:E. unfold directory_exists in E.
    apply try_except_inv in E as (r0 & E & ->). run; first [congruence | reflexivity].
  - destruct (get_file_info path m) as [r m'] eqn:E. unfold get_file_info in E.
    apply try_except_inv in E as (r0 & E & ->). run; first [congruence | reflexivity].
Qed.

(** A missing path has no file information. *)
Lemma get_file_info_missing path m :
  fs m !! resolve_arg path m = None → get_file_info path m = (Return None, m).
Proof.
  intros Hp. destruct (get_file_info path m) as [r m'] eqn:E. unfold get_file_info in E.
  apply try_except_inv in E as (r0 & E & ->).
  run; unfold OS.exists_ in *; try rewrite Hp in *; first [congruence | reflexivity].
Qed.

(** X1.  Every operation refuses a candidate without a NUL byte that fails
    the prefix test, before it touches anything.  The operations on one
    path, and [move_file] and [copy_file] given the candidate as source,
    raise [PathValidationError].  Given the candidate as destination,
    [move_file] and [copy_file] raise too: [FileNotFoundError] when the
    source passes the test and is missing, [PathValidationError] otherwise. *)
Lemma outside_prefix_rejected path other content confirm m :
  has_nul (arg_str path) = false →
  passes_prefix_test path m = false →
  rejected m (read_file path m)
  ∧ rejected m (write_file path content confirm m)
  ∧ rejected m (list_directory path m)
  ∧ rejected m (create_directory path confirm m)
  ∧ rejected m (delete_file path confirm m)
  ∧ rejected m (move_file path other confirm m)
  ∧ rejected m (copy_file path other confirm m)
  ∧ (well_named other m →
     refused_at_destination other m (move_file other path confirm m)
     ∧ refused_at_destination other m (copy_file other path confirm m)).
Proof.
  unfold passes_prefix_test. intros _ Hpre. split_and!.
  - destruct (read_file path m) as [r m'] eqn:E. unfold read_file in E. run; reject.
  - destruct (write_file _ _ _ m) as [r m'] eqn:E. unfold write_file in E. run; reject.
  - destruct (list_directory path m) as [r m'] eqn:E. unfold list_directory in E.
    run; reject.
  - destruct (create_directory _ _ m) as [r m'] eqn:E. unfold create_directory in E.
    run; reject.
  - destruct (delete_file _ _ m) as [r m'] eqn:E. unfold delete_file in E. run; reject.
  - destruct (move_file _ _ _ m) as [r m'] eqn:E. unfold move_file in E. run; reject.
  - destruct (copy_file _ _ _ m) as [r m'] eqn:E. unfold copy_file in E. run; reject.
  - intros _. unfold refused_at_destination, passes_prefix_test. split.
    + destruct (move_file _ _ _ m) as [r m'] eqn:E. unfold move_file in E.
      run; first [ congruence
                 | eexists; split; [reflexivity|]; cbn [exn_class_of];
                   repeat match goal with H : _ = _ |- _ => rewrite H end; done ].
    + destruct (copy_file _ _ _ m) as [r m'] eqn:E. unfold copy_file in E.
      run; first [ congruence
                 | eexists; split; [reflexivity|]; cbn [exn_class_of];
                   repeat match goal with H : _ = _ |- _ => rewrite H end; done ].
Qed.

End Probes.

(** ** The prefix test against containment by components *)

Section PrefixTest.

Lemma prefix_app_l (w x y : string) :
  String.prefix (w +:+ x) (w +:+ y) = String.prefix x y.
Proof.
  induction w as [|c w IH]; [reflexivity|].
  change (String.prefix (String c (w +:+ x)) (String c (w +:+ y)) = String.prefix x y).
  cbn [String.prefix]. by destruct (ascii_dec c c).
Qed.

Lemma prefix_empty (y : string) : String.prefix "" y = true.
Proof. by destruct y. Qed.

Lemma prefix_app_self (w y : string) : String.prefix w (w +:+ y) = true.
Proof.
  induction w as [|c w IH]; [apply prefix_empty|].
  change (String.prefix (String c w) (String c (w +:+ y)) = true).
  cbn [String.prefix]. by destruct (ascii_dec c c).
Qed.

Lemma prefix_refl (w : string) : String.prefix w w = true.
Proof.
  induction w as [|c w IH]; [reflexivity|]. cbn [String.prefix].
  by destruct (ascii_dec c c).
Qed.

Lemma relative_to_app (p base r : Path) :
  PathLib.relative_to p base = Some r → p = (base ++ r)%list.
Proof.
  revert p. induction base as [|b base IH]; intros p.
  - destruct p; cbn; by intros [= <-].
  - destruct p as [|w p]; cbn; [done|].
    destruct (String.eqb_spec b w) as [->|]; [|done].
    intros H. by rewrite (IH _ H).
Qed.

Lemma join_app_prefix (base r : Path) :
  String.prefix (PyStr.join "/" base) (PyStr.join "/" (base ++ r)) = true.
Proof.
  induction base as [|w [|w' base] IH]; [apply prefix_empty| |].
  - destruct r; cbn; [apply prefix_refl|apply prefix_app_self].
  - change (String.prefix (w +:+ "/" +:+ PyStr.join "/" (w' :: base))
              (w +:+ "/" +:+ PyStr.join "/" ((w' :: base) ++ r)) = true).
    by rewrite !prefix_app_l.
Qed.

(** X2.  Whatever lies in the workspace by components passes the prefix
    test: the test errs on one side only. *)
Lemma inside_passes_prefix_test path m :
  inside_workspace path m → passes_prefix_test path m = true.
Proof.
  intros [r Hr]. unfold passes_prefix_test, PyStr.startswith, PathLib.str.
  rewrite (relative_to_app _ _ _ Hr), prefix_app_l. apply join_app_prefix.
Qed.

End PrefixTest.

(** ** The exit codes *)

Section ExitCodes.

Lemma handle_scheme e :
  CLI.handle CLI.handlers e = Some (exit_code_scheme (exn_class_of e)).
Proof. destruct e as [[] msg]; reflexivity. Qed.

Lemma run_codes args m code m' :
  CLI.run args m = (Return code, m') →
  code = 0 ∨ (code = 1 ∧ may_report_absent (CLI.command args) = true).
Proof.
  unfold CLI.run. destruct (CLI.command args); cbn [may_report_absent];
    unfold bind, ret; repeat case_match; intros; simplify_eq; auto.
Qed.

End ExitCodes.

(** ** Snapshots of the log *)

Section Snapshots.

Implicit Types (m : Machine) (l : positive).

Lemma get_history_entries_eq m : get_history_entries m = history m.
Proof.
  unfold get_history_entries, get_history, deref. cbn. by rewrite lookup_insert_eq.
Qed.

Lemma record_all_log actions m :
  history (snd (record_all actions m))
  = log_after (history_size (self m)) (history m) actions.
Proof.
  revert m. induction actions as [|a rest IH]; intros m; [done|].
  cbn. unfold bind. pose proof (record_action_returns a m) as E.
  pose proof (record_action_frame a m) as F.
  pose proof (history_record_action a m) as H.
  destruct (_record_action a m) as [r m1]. cbn in E, F, H. subst r.
  rewrite IH, H. by destruct F as (_&_&_&_&_&->&_).
Qed.

(** X3.  With a positive capacity [c], [get_history()] after [N] recorded
    actions holds the last [min N c] of them, oldest first. *)
Lemma history_bounded_fifo (c : nat) actions m :
  (0 < c)%nat → history_size (self m) = Z.of_nat c → history m = [] →
  let entries := get_history_entries (snd (record_all actions m)) in
  entries = last_n c actions
  ∧ List.length entries = Nat.min (List.length actions) c.
Proof.
  intros Hc Hsz Hh entries. subst entries. rewrite get_history_entries_eq.
  rewrite (record_all_history c) by (rewrite ?Hh; cbn; done || lia).
  rewrite Hh. cbn [app]. by rewrite last_n_length.
Qed.

Lemma get_history_fresh m :
  history_allocated m →
  fresh (dom (heap m)) ≠ action_history (self m).
Proof.
  intros Ha E. apply (is_fresh (dom (heap m))). rewrite E.
  by apply elem_of_dom.
Qed.

(** A client that [__init__] has built holds a reference into the heap,
    and its log is empty. *)
Lemma init_allocates workspace auto size m m' :
  __init__ workspace auto size m = (Return tt, m') →
  history_allocated m' ∧ history m' = [] ∧ history_size (self m') = size
  ∧ shipped m'.
Proof.
  unfold __init__, history_allocated, history, deref, shipped.
  case_match; intros E; run; cbn; rewrite lookup_insert_eq; eauto.
Qed.

End Snapshots.

(** ** Well-formed file systems *)

Section WellFormed.

Implicit Types (p q : Path) (fs : gmap Path node).

(** Adding an entry below a directory, at a place that holds no directory. *)
Lemma well_formed_insert p n fs :
  well_formed fs → fs !! PathLib.parent p = Some Dir → p ≠ [] →
  (n = Dir ∨ fs !! p ≠ Some Dir) →
  well_formed (<[p := n]> fs).
Proof.
  intros [Hroot Hwf] Hpar Hne Hn. split.
  - by rewrite lookup_insert_ne.
  - intros q k Hq Hqne.
    destruct (decide (PathLib.parent q = p)) as [Hqp|Hqp].
    + rewrite Hqp, lookup_insert_eq. f_equal.
      destruct Hn as [->|Hn]; [done|].
      destruct (decide (q = p)) as [->|Hneq]; [congruence|].
      rewrite lookup_insert_ne in Hq by done.
      specialize (Hwf _ _ Hq Hqne). congruence.
    + rewrite lookup_insert_ne by done.
      destruct (decide (q = p)) as [->|Hneq]; [done|].
      rewrite lookup_insert_ne in Hq by done. eauto.
Qed.

(** Removing a regular file. *)
Lemma well_formed_delete p c fs :
  well_formed fs → fs !! p = Some (File c) → well_formed (delete p fs).
Proof.
  intros [Hroot Hwf] Hp. split.
  - rewrite lookup_delete_ne; [done|]. intros ->. congruence.
  - intros q k Hq Hqne. apply lookup_delete_Some in Hq as [Hneq Hq].
    specialize (Hwf _ _ Hq Hqne).
    rewrite lookup_delete_ne; [done|]. intros ->. congruence.
Qed.

(** In a well-formed file system the directories above an entry are
    there, so the kernel reaches the directory of a path whenever that
    directory exists. *)
Lemma well_formed_above fs q k :
  well_formed fs → is_Some (fs !! (q ++ k)%list) → k ≠ [] → fs !! q = Some Dir.
Proof.
  intros [Hroot Hwf]. induction k as [|w k IH] using rev_ind; [done|].
  intros [n Hn] _. rewrite app_assoc in Hn.
  pose proof (Hwf _ _ Hn ltac:(by destruct (q ++ k)%list)) as Hpar.
  unfold PathLib.parent in Hpar. rewrite removelast_last in Hpar.
  destruct k as [|w' k]; [by rewrite app_nil_r in Hpar|].
  apply IH; [by eexists|done].
Qed.

Lemma well_formed_walk fs seen rest :
  well_formed fs → fs !! (seen ++ rest)%list = Some Dir →
  OS.walk_error fs seen rest = None.
Proof.
  intros Hwf. revert seen. induction rest as [|w rest IH]; intros seen Hd; cbn.
  - rewrite app_nil_r in Hd. by rewrite Hd.
  - rewrite (well_formed_above fs seen (w :: rest) Hwf) by (by eexists || done).
    apply IH. by rewrite <- app_assoc.
Qed.

Lemma well_formed_parent_error fs p :
  well_formed fs → fs !! PathLib.parent p = Some Dir → OS.parent_error fs p = None.
Proof.
  intros Hwf Hpar. unfold OS.parent_error.
  by rewrite (well_formed_walk fs [] (PathLib.parent p) Hwf Hpar).
Qed.

Lemma well_formed_not_root fs p :
  well_formed fs → fs !! p ≠ Some Dir → p ≠ [].
Proof. intros [Hroot _] Hp ->. done. Qed.

Lemma mkdir_well_formed p fs fs' :
  well_formed fs → OS.mkdir p fs = Return fs' → well_formed fs'.
Proof.
  intros Hwf E. pose proof E as (-> & Hp & Hne)%mkdir_inv.
  unfold OS.mkdir in E. destruct (OS.parent_error fs p) eqn:Hpar; [done|].
  apply well_formed_insert; auto using parent_error_None.
Qed.

Lemma mkdir_exist_ok_well_formed p fs fs' :
  well_formed fs → OS.mkdir_exist_ok p fs = Return fs' → well_formed fs'.
Proof.
  intros Hwf. unfold OS.mkdir_exist_ok. destruct (OS.mkdir p fs) eqn:E.
  - intros [= <-]. by eapply mkdir_well_formed.
  - repeat case_match; intros; by simplify_eq.
Qed.

Lemma mkdir_parents_well_formed p fs fs' :
  well_formed fs → OS.mkdir_parents p fs = Return fs' → well_formed fs'.
Proof.
  unfold OS.mkdir_parents. generalize (List.length p) as d. intros d. revert p fs'.
  induction d as [|d IH]; intros p fs' Hwf; cbn;
    destruct (OS.mkdir p fs) eqn:E;
    try (intros [= <-]; by eapply mkdir_well_formed).
  - repeat case_match; intros; by simplify_eq.
  - destruct (isinstance _ FileNotFoundError).
    + destruct (OS.mkdir_parents_from d _ fs) eqn:E1; [|done].
      apply mkdir_exist_ok_well_formed. by eapply IH.
    + case_match; intros; by simplify_eq.
Qed.

Lemma write_data_well_formed p c fs fs' :
  well_formed fs → OS.write_data p c fs = Return fs' → well_formed fs'.
Proof.
  intros Hwf. unfold OS.write_data.
  destruct (OS.parent_error fs p) eqn:Hpar; [done|].
  apply parent_error_None in Hpar.
  destruct (fs !! p) as [[|]|] eqn:Hp; intros; simplify_eq;
    (apply well_formed_insert; [done|done| |right; congruence]);
    apply (well_formed_not_root fs); auto; congruence.
Qed.

Lemma remove_well_formed p fs fs' :
  well_formed fs → OS.remove p fs = Return fs' → well_formed fs'.
Proof.
  intros Hwf. unfold OS.remove.
  destruct (fs !! p) as [[|]|] eqn:Hp; intros; simplify_eq.
  by eapply well_formed_delete.
Qed.

Lemma copy2_well_formed src dst fs fs' :
  well_formed fs → Shutil.copy2 src dst fs = Return fs' → well_formed fs'.
Proof.
  intros Hwf. unfold Shutil.copy2.
  repeat case_match; try done; by apply write_data_well_formed.
Qed.

Lemma rename_file_well_formed src dst c fs fs' :
  well_formed fs → fs !! src = Some (File c) →
  OS.rename_file src dst c fs = Return fs' → well_formed fs'.
Proof.
  intros Hwf Hsrc. unfold OS.rename_file, OS.is_dir.
  destruct (OS.parent_error fs dst) eqn:Hpar; [done|].
  apply parent_error_None in Hpar.
  case_decide; [intros; by simplify_eq|].
  destruct (fs !! dst) as [[|]|] eqn:Hdst; intros; simplify_eq;
    (apply well_formed_insert;
     [ by eapply well_formed_delete
     | rewrite lookup_delete_ne; [done|intros E; congruence]
     | apply (well_formed_not_root fs); auto; congruence
     | right; rewrite lookup_delete_ne by done; congruence ]).
Qed.

Lemma move_well_formed src dst fs fs' :
  well_formed fs → Shutil.move src dst fs = Return fs' → well_formed fs'.
Proof.
  intros Hwf. unfold Shutil.move, Shutil.rename_or_copy.
  destruct (fs !! src) as [[c|]|] eqn:Hsrc; try done.
  repeat case_match; try done; intros; simplify_eq;
    first [ by eapply rename_file_well_formed
          | eapply remove_well_formed; [|eassumption];
            by eapply copy2_well_formed ].
Qed.

(** Deciding well-formedness of a given file system entry by entry. *)
Lemma well_formed_by_entries fs :
  fs !! [] = Some Dir →
  map_Forall (fun p _ => p = [] ∨ fs !! PathLib.parent p = Some Dir) fs →
  well_formed fs.
Proof.
  intros Hroot Hall. split; [done|]. intros q n Hq Hne.
  destruct (Hall q n Hq); [done|assumption].
Qed.

Lemma sample_file_systems_well_formed :
  well_formed bare_fs ∧ well_formed stocked_fs ∧ well_formed sibling_fs.
Proof.
  split_and!; apply well_formed_by_entries; try reflexivity;
    apply map_Forall_to_list; vm_compute;
    repeat (constructor; [by (left + right)|]); constructor.
Qed.

End WellFormed.

(** ** Invariants of the client *)

Ltac settled :=
  unfold same_settings, history_allocated in *; cbn [fst snd];
  repeat match goal with
         | |- context [snd (_record_action ?a ?m)] =>
             pose proof (record_action_frame a m);
             pose proof (record_action_allocated a m);
             generalize dependent (snd (_record_action a m)); intros
         end;
  cbn in *; intuition congruence.

Section Invariants.

Implicit Types (m : Machine) (path source destination : PathArg).

(** Every mutating operation keeps the settings of the client and keeps
    its log allocated. *)
Lemma write_file_keeps path content confirm m :
  history_allocated m →
  let m' := snd (write_file path content confirm m) in
  same_settings m m' ∧ history_allocated m'.
Proof.
  intros Ha. destruct (write_file _ _ _ m) as [r m'] eqn:E.
  unfold write_file in E. run; settled.
Qed.

Lemma create_directory_keeps path confirm m :
  history_allocated m →
  let m' := snd (create_directory path confirm m) in
  same_settings m m' ∧ history_allocated m'.
Proof.
  intros Ha. destruct (create_directory _ _ m) as [r m'] eqn:E.
  unfold create_directory in E. run; settled.
Qed.

Lemma delete_file_keeps path confirm m :
  history_allocated m →
  let m' := snd (delete_file path confirm m) in
  same_settings m m' ∧ history_allocated m'.
Proof.
  intros Ha. destruct (delete_file _ _ m) as [r m'] eqn:E.
  unfold delete_file in E. run; settled.
Qed.

Lemma move_file_keeps source destination confirm m :
  history_allocated m →
  let m' := snd (move_file source destination confirm m) in
  same_settings m m' ∧ history_allocated m'.
Proof.
  intros Ha. destruct (move_file _ _ _ m) as [r m'] eqn:E.
  unfold move_file in E. run; settled.
Qed.

Lemma copy_file_keeps source destination confirm m :
  history_allocated m →
  let m' := snd (copy_file source destination confirm m) in
  same_settings m m' ∧ history_allocated m'.
Proof.
  intros Ha. destruct (copy_file _ _ _ m) as [r m'] eqn:E.
  unfold copy_file in E. run; settled.
Qed.

(** Every mutating operation leaves a well-formed file system well formed. *)
Lemma operations_keep_well_formed path source destination content confirm m :
  well_formed (fs m) →
  well_formed (fs (snd (write_file path content confirm m)))
  ∧ well_formed (fs (snd (create_directory path confirm m)))
  ∧ well_formed (fs (snd (delete_file path confirm m)))
  ∧ well_formed (fs (snd (move_file source destination confirm m)))
  ∧ well_formed (fs (snd (copy_file source destination confirm m))).
Proof.
  intros Hwf. split_and!.
  - destruct (write_file _ _ _ m) as [r m'] eqn:E. unfold write_file in E.
    run; cbn [snd]; rewrite ?record_action_fs; cbn [fs set_fs];
      eauto using mkdir_parents_well_formed, write_data_well_formed.
  - destruct (create_directory _ _ m) as [r m'] eqn:E. unfold create_directory in E.
    run; cbn [snd]; rewrite ?record_action_fs; cbn [fs set_fs];
      eauto using mkdir_parents_well_formed.
  - destruct (delete_file _ _ m) as [r m'] eqn:E. unfold delete_file in E.
    run; cbn [snd]; rewrite ?record_action_fs; cbn [fs set_fs];
      eauto using remove_well_formed.
  - destruct (move_file _ _ _ m) as [r m'] eqn:E. unfold move_file in E.
    run; cbn [snd]; rewrite ?record_action_fs; cbn [fs set_fs];
      eauto using mkdir_parents_well_formed, move_well_formed.
  - destruct (copy_file _ _ _ m) as [r m'] eqn:E. unfold copy_file in E.
    run; cbn [snd]; rewrite ?record_action_fs; cbn [fs set_fs];
      eauto using mkdir_parents_well_formed, copy2_well_formed.
Qed.

End Invariants.

(** * The specification, claim by claim *)

(** C1 (the code breaks the claim).  Against the root [/a/ws] the candidate
    [/a/ws-evil/x] is outside the workspace by components, yet
    [_validate_path] returns it, because it compares the texts of the two
    paths.  [write_file] then creates the directory [/a/ws-evil] and ends
    with pathlib's [ValueError]; [read_file] of the existing sibling file
    ends with [ValueError] as well; no [PathValidationError] is raised. *)
Theorem sibling_prefix_passes_validation :
  let m := client_on bare_fs 100 None in
  let p := PStr "/a/ws-evil/x" in
  let written := write_file p "hi" true m in
  ¬ inside_workspace p m
  ∧ fst (_validate_path p false m) = Return ["a"; "ws-evil"; "x"]
  ∧ raised_class (fst written) = Some ValueError
  ∧ fs m !! ["a"; "ws-evil"] = None
  ∧ fs (snd written) !! ["a"; "ws-evil"] = Some Dir
  ∧ raised_class (fst (read_file p (client_on sibling_fs 100 None))) = Some ValueError.
Proof.
  split_and!; try (vm_compute; reflexivity).
  intros [r Hr]. vm_compute in Hr. discriminate.
Qed.

(** C2 (the code breaks the claim).  With auto-confirm off and a decision
    that answers "no", [write_file("b/c.txt", "hi")] raises
    [OperationCancelledError] after it has created the directory
    [/a/ws/b]. *)
Theorem declined_write_creates_parent :
  let m := client_on bare_fs 100 (Some say_no) in
  let out := write_file (PStr "b/c.txt") "hi" true m in
  declining m
  ∧ raised_class (fst out) = Some OperationCancelledError
  ∧ fs m !! ["a"; "ws"; "b"] = None
  ∧ fs (snd out) !! ["a"; "ws"; "b"] = Some Dir.
Proof.
  split_and!; try (vm_compute; reflexivity).
  split; [reflexivity|]. exists say_no. by split.
Qed.

(** C3.  With auto-confirm off, [_request_confirmation] answers [True] to
    every request, and on the client as shipped no mutating operation
    called with [confirm=True] raises [OperationCancelledError]. *)
Theorem shipped_gate_approves_everything (m : Machine) :
  auto_confirm (self m) = false → shipped m →
  (∀ operation details,
     _request_confirmation operation details m = (Return true, m))
  ∧ (∀ path content, never_cancelled (write_file path content true m))
  ∧ (∀ path, never_cancelled (create_directory path true m))
  ∧ (∀ path, never_cancelled (delete_file path true m))
  ∧ (∀ source destination, never_cancelled (move_file source destination true m))
  ∧ (∀ source destination, never_cancelled (copy_file source destination true m)).
Proof.
  intros _ Hs. split_and!; intros.
  - apply request_confirmation_true.
  - by apply write_file_never_cancelled.
  - by apply create_directory_never_cancelled.
  - by apply delete_file_never_cancelled.
  - by apply move_file_never_cancelled.
  - by apply copy_file_never_cancelled.
Qed.

Lemma shipped_gate_approves_everything_witness :
  let m := client_on bare_fs 100 None in
  auto_confirm (self m) = false ∧ shipped m
  ∧ _request_confirmation "Write File" "details" m = (Return true, m)
  ∧ never_cancelled (write_file (PStr "b/c.txt") "hi" true m).
Proof.
  pose proof (shipped_gate_approves_everything (client_on bare_fs 100 None)
                eq_refl eq_refl) as (H1 & H2 & _).
  split_and!; [reflexivity | reflexivity | apply H1 | apply H2].
Defined.

(** C4 (as stated, refuted).  [delete_file] of a missing path raises
    [FileNotFoundError] from the validation and appends no record. *)
Lemma missing_file_deletion_not_recorded :
  let m := client_on bare_fs 100 None in
  let out := delete_file (PStr "nope") true m in
  raised_class (fst out) = Some FileNotFoundError ∧ ¬ recorded m out.
Proof.
  split; [vm_compute; reflexivity|].
  intros (a & H & _). vm_compute in H. discriminate.
Qed.

(** C4 (amended).  Once the checks that precede the creation of the
    [ActionRecord] have passed, every mutating operation appends exactly
    one record, whose [success] field tells whether the call returned:
    on success, on cancellation and on an exception of the OS call alike.
    When those checks raise, the operation raises the same exception and
    the audit log stays as it was. *)
Theorem one_record_after_checks (m : Machine) (path source destination : PathArg)
    (content : string) (confirm : bool) :
  audited_after_checks (write_file_checks path) (write_file path content confirm) m
  ∧ audited_after_checks (create_directory_checks path) (create_directory path confirm) m
  ∧ audited_after_checks (delete_file_checks path) (delete_file path confirm) m
  ∧ audited_after_checks
      (transfer_checks "Use move_directory for directories: " source destination)
      (move_file source destination confirm) m
  ∧ audited_after_checks
      (transfer_checks "Use copy_directory for directories: " source destination)
      (copy_file source destination confirm) m.
Proof.
  split_and!.
  - apply write_file_audited.
  - apply create_directory_audited.
  - apply delete_file_audited.
  - apply move_file_audited.
  - apply copy_file_audited.
Qed.

(** C5 (the code breaks the claim).  With capacity 0 nothing is evicted:
    after two recorded actions [get_history()] returns both, where the
    claim promises [min 2 0 = 0] entries. *)
Theorem zero_capacity_keeps_everything :
  let m := client_on bare_fs 0 None in
  let actions := [sample_action "one"; sample_action "two"] in
  let written := (write_file (PStr "f") "hi" true ;;;
                  write_file (PStr "g") "hi" true) m in
  history_size (self m) = 0
  ∧ get_history_entries (snd (record_all actions m)) = actions
  ∧ fst written = Return true
  ∧ List.length (get_history_entries (snd written)) = 2%nat.
Proof. split_and!; vm_compute; reflexivity. Qed.

(** C6 (the code breaks the claim).  The sibling file [/a/ws-evil/x] is
    outside the workspace [/a/ws], yet [file_exists] and
    [directory_exists] answer [True] for it and its directory, and
    [get_file_info] returns its information. *)
Theorem sibling_prefix_probes_answer :
  let m := client_on sibling_fs 100 None in
  ¬ inside_workspace (PStr "/a/ws-evil/x") m
  ∧ ¬ inside_workspace (PStr "/a/ws-evil") m
  ∧ fst (file_exists (PStr "/a/ws-evil/x") m) = Return true
  ∧ fst (directory_exists (PStr "/a/ws-evil") m) = Return true
  ∧ fst (get_file_info (PStr "/a/ws-evil/x") m)
    = Return (Some (FileInfo.mk "x" "/a/ws-evil/x" false (Some 6))).
Proof.
  split_and!; try (vm_compute; reflexivity);
    intros [r Hr]; vm_compute in Hr; discriminate.
Qed.

(** C7 (as stated, refuted).  A text with a carriage return is written as
    it is and read back with a line feed in its place. *)
Lemma carriage_return_not_read_back :
  let m := client_on bare_fs 100 None in
  let written := write_file (PStr "f") text_with_cr true m in
  fst written = Return true
  ∧ fst (read_file (PStr "f") (snd written)) = Return (String "a" (String OS.LF "b"))
  ∧ fst (read_file (PStr "f") (snd written)) ≠ Return text_with_cr.
Proof. split_and!; vm_compute; [reflexivity..|discriminate]. Qed.

(** C7 (amended).  For every text without a carriage return, a
    successful [write_file(p, c)] followed by [read_file(p)] returns [c]. *)
Theorem write_then_read (m m1 : Machine) (path : PathArg) (content : string)
    (confirm : bool) :
  has_cr content = false →
  write_file path content confirm m = (Return true, m1) →
  fst (read_file path m1) = Return content.
Proof.
  intros Hcr (Hpre & Hrel & Hcwd & Hws & fs1 & _ & Hfs)%write_file_success.
  rewrite <- (universal_newlines_id content Hcr).
  apply read_file_of_file; rewrite (resolve_arg_frame _ _ _ Hcwd Hws), ?Hws.
  - done.
  - done.
  - by rewrite Hfs, lookup_insert_eq.
Qed.

Lemma write_then_read_witness :
  let m := client_on bare_fs 100 None in
  let m1 := snd (write_file (PStr "b/c.txt") "hi" true m) in
  has_cr "hi" = false
  ∧ write_file (PStr "b/c.txt") "hi" true m = (Return true, m1)
  ∧ fst (read_file (PStr "b/c.txt") m1) = Return "hi".
Proof.
  assert (write_file (PStr "b/c.txt") "hi" true (client_on bare_fs 100 None)
          = (Return true,
             snd (write_file (PStr "b/c.txt") "hi" true (client_on bare_fs 100 None))))
    as E by (vm_compute; reflexivity).
  split_and!; [reflexivity | exact E | ].
  exact (write_then_read _ _ (PStr "b/c.txt") "hi" true eq_refl E).
Defined.

(** C8 (as stated, refuted).  Moving a file onto itself succeeds and the
    source is still there; copying a file to an existing directory succeeds
    and puts the copy inside the directory, which stays a directory. *)
Lemma move_onto_itself_keeps_source :
  let m := client_on stocked_fs 100 None in
  let moved := move_file (PStr "f") (PStr "f") true m in
  let copied := copy_file (PStr "f") (PStr "d") true m in
  fst moved = Return true
  ∧ fs (snd moved) !! ["a"; "ws"; "f"] = Some (File "hi")
  ∧ fst copied = Return true
  ∧ fs (snd copied) !! ["a"; "ws"; "d"] = Some Dir
  ∧ fs (snd copied) !! ["a"; "ws"; "d"; "f"] = Some (File "hi").
Proof. split_and!; vm_compute; reflexivity. Qed.

(** C8 (amended).  Let [src] be a regular file with content [c] and let
    [dst] resolve to a path that is not an existing directory.  After a
    successful [copy_file(src, dst)] both [src] and [dst] hold [c]; after a
    successful [move_file(src, dst)] with [dst] other than [src], [src] is
    absent and [dst] holds [c]. *)
Theorem copy_keeps_move_removes (m : Machine) (source destination : PathArg)
    (confirm : bool) (c : string) :
  let src := resolve_arg source m in
  let dst := resolve_arg destination m in
  fs m !! src = Some (File c) → OS.is_dir (fs m) dst = false →
  (∀ m1, copy_file source destination confirm m = (Return true, m1) →
         fs m1 !! src = Some (File c) ∧ fs m1 !! dst = Some (File c))
  ∧ (∀ m1, src ≠ dst →
           move_file source destination confirm m = (Return true, m1) →
           fs m1 !! src = None ∧ fs m1 !! dst = Some (File c)).
Proof.
  intros src dst Hsrc Hdir. split; intros m1.
  - by apply copy_file_success.
  - by apply move_file_success.
Qed.

Lemma copy_keeps_move_removes_witness :
  let m := client_on stocked_fs 100 None in
  let copied := copy_file (PStr "f") (PStr "g") true m in
  let moved := move_file (PStr "f") (PStr "g") true m in
  fs m !! ["a"; "ws"; "f"] = Some (File "hi")
  ∧ OS.is_dir (fs m) ["a"; "ws"; "g"] = false
  ∧ (fs (snd copied) !! ["a"; "ws"; "f"] = Some (File "hi")
     ∧ fs (snd copied) !! ["a"; "ws"; "g"] = Some (File "hi"))
  ∧ (fs (snd moved) !! ["a"; "ws"; "f"] = None
     ∧ fs (snd moved) !! ["a"; "ws"; "g"] = Some (File "hi")).
Proof.
  pose proof (copy_keeps_move_removes (client_on stocked_fs 100 None)
                (PStr "f") (PStr "g") true "hi" eq_refl eq_refl) as [Hc Hm].
  cbv zeta. split; [reflexivity|]. split; [reflexivity|]. split.
  - apply Hc. vm_compute. reflexivity.
  - apply Hm; [discriminate | vm_compute; reflexivity].
Defined.




(** C10.  [get_history()] returns a new list object with the entries of
    the log.  Whatever the caller then stores in that list, the client's
    log keeps its entries, and every later sequence of recordings and
    evictions gives the log it would have given without the change. *)
Theorem get_history_returns_a_copy (m : Machine) :
  history_allocated m →
  ∃ l, fst (get_history m) = Return l
       ∧ l ≠ action_history (self (snd (get_history m)))
       ∧ deref (snd (get_history m)) l = history m
       ∧ ∀ l' : list ActionRecord.t,
           let m' := mutate_list l l' (snd (get_history m)) in
           history m' = history m
           ∧ ∀ actions,
               history (snd (record_all actions m'))
               = history (snd (record_all actions m)).
Proof.
  intros Ha. pose proof (get_history_fresh m Ha) as Hne.
  exists (fresh (dom (heap m))). cbn [get_history fst snd].
  assert (∀ l', history (mutate_list (fresh (dom (heap m))) l'
                   (set_heap (<[fresh (dom (heap m)) := history m]> (heap m)) m))
                = history m) as Hh.
  { intros l'. unfold history at 1, deref, mutate_list. cbn.
    by rewrite !lookup_insert_ne. }
  split_and!; [done|done| |].
  - unfold deref. cbn. by rewrite lookup_insert_eq.
  - intros l'. split; [apply Hh|].
    intros actions. by rewrite !record_all_log, Hh.
Qed.

Lemma get_history_returns_a_copy_witness :
  let m := snd (record_all [sample_action "one"] (client_on bare_fs 100 None)) in
  history_allocated m
  ∧ ∃ l, fst (get_history m) = Return l
         ∧ history (mutate_list l [] (snd (get_history m))) = [sample_action "one"].
Proof.
  assert (history_allocated
            (snd (record_all [sample_action "one"] (client_on bare_fs 100 None))))
    as Ha by (vm_compute; eauto).
  split; [exact Ha|].
  destruct (get_history_returns_a_copy _ Ha) as (l & Hl & _ & _ & Hm).
  exists l. split; [exact Hl|].
  destruct (Hm []) as [-> _]. reflexivity.
Defined.


(** * Further properties of the client *)

(** X1, witness.  The traversal [../../etc/passwd] fails the prefix test;
    it is refused by reading and by writing, and as the destination of a
    move: with [PathValidationError] when the source is there, with
    [FileNotFoundError] when it is missing. *)
Lemma outside_prefix_rejected_witness :
  let m := client_on stocked_fs 100 None in
  let p := PStr "../../etc/passwd" in
  has_nul (arg_str p) = false
  ∧ passes_prefix_test p m = false
  ∧ well_named (PStr "f") m ∧ well_named (PStr "nothing") m
  ∧ rejected m (read_file p m)
  ∧ rejected m (write_file p "hi" true m)
  ∧ rejected m (move_file (PStr "f") p true m)
  ∧ (∃ e, move_file (PStr "nothing") p true m = (Raise e, m)
          ∧ exn_class_of e = FileNotFoundError).
Proof.
  pose proof (outside_prefix_rejected (PStr "../../etc/passwd") (PStr "f") "hi" true
                (client_on stocked_fs 100 None) eq_refl eq_refl)
    as (H1 & H2 & _ & _ & _ & _ & _ & H3).
  pose proof (outside_prefix_rejected (PStr "../../etc/passwd") (PStr "nothing") "hi"
                true (client_on stocked_fs 100 None) eq_refl eq_refl)
    as (_ & _ & _ & _ & _ & _ & _ & H4).
  cbv zeta. split_and!; [reflexivity | reflexivity | by split | by split
                        | exact H1 | exact H2 | | ].
  - exact (proj1 (H3 (conj eq_refl eq_refl))).
  - exact (proj1 (H4 (conj eq_refl eq_refl))).
Defined.

(** X2, witness.  [b/c.txt] is inside the workspace and passes the test. *)
Lemma inside_passes_prefix_test_witness :
  let m := client_on bare_fs 100 None in
  inside_workspace (PStr "b/c.txt") m
  ∧ passes_prefix_test (PStr "b/c.txt") m = true.
Proof.
  assert (inside_workspace (PStr "b/c.txt") (client_on bare_fs 100 None)) as H
    by (vm_compute; eauto).
  split; [exact H | exact (inside_passes_prefix_test _ _ H)].
Defined.

(** X3, witness.  A log of capacity 1 holds the later of two records. *)
Lemma history_bounded_fifo_witness :
  let m := client_on bare_fs 1 None in
  let actions := [sample_action "one"; sample_action "two"] in
  (0 < 1)%nat ∧ history_size (self m) = Z.of_nat 1 ∧ history m = []
  ∧ get_history_entries (snd (record_all actions m)) = [sample_action "two"]
  ∧ List.length (get_history_entries (snd (record_all actions m))) = 1%nat.
Proof.
  pose proof (history_bounded_fifo 1 [sample_action "one"; sample_action "two"]
                (client_on bare_fs 1 None) (le_n 1) eq_refl eq_refl) as [H1 H2].
  cbv zeta. split_and!; [exact (le_n 1) | reflexivity | reflexivity | exact H1 | exact H2].
Defined.

(** X4.  When the confirmation decision is "no", [create_directory],
    [delete_file], [move_file] and [copy_file] never get past the gate.
    If a check before the gate raises, the call raises that exception and
    the machine is untouched; if the checks pass, the call raises
    [OperationCancelledError] and the file system is as it was. *)
Theorem declined_calls_leave_files (m : Machine) (path source destination : PathArg) :
  declining m →
  refused_without_effect (create_directory_checks path)
    (create_directory path true) m
  ∧ refused_without_effect (delete_file_checks path) (delete_file path true) m
  ∧ refused_without_effect
      (transfer_checks "Use move_directory for directories: " source destination)
      (move_file source destination true) m
  ∧ refused_without_effect
      (transfer_checks "Use copy_directory for directories: " source destination)
      (copy_file source destination true) m.
Proof.
  intros Hd. split_and!.
  - by apply create_directory_declined.
  - by apply delete_file_declined.
  - by apply move_file_declined.
  - by apply copy_file_declined.
Qed.

Lemma declined_calls_leave_files_witness :
  let m := client_on stocked_fs 100 (Some say_no) in
  declining m
  ∧ (∃ e, fst (delete_file (PStr "f") true m) = Raise e
          ∧ exn_class_of e = OperationCancelledError
          ∧ fs (snd (delete_file (PStr "f") true m)) = fs m)
  ∧ (∃ e, fst (move_file (PStr "f") (PStr "g") true m) = Raise e
          ∧ exn_class_of e = OperationCancelledError
          ∧ fs (snd (move_file (PStr "f") (PStr "g") true m)) = fs m)
  ∧ (∃ e, delete_file (PStr "nothing") true m = (Raise e, m)
          ∧ exn_class_of e = FileNotFoundError).
Proof.
  assert (declining (client_on stocked_fs 100 (Some say_no))) as Hd.
  { split; [reflexivity|]. exists say_no. split; [reflexivity|]. intros; reflexivity. }
  pose proof (declined_calls_leave_files _ (PStr "f") (PStr "f") (PStr "g") Hd)
    as (_ & Hdel & Hmove & _).
  pose proof (declined_calls_leave_files _ (PStr "nothing") (PStr "f") (PStr "g") Hd)
    as (_ & Hmissing & _).
  cbv zeta. split_and!; [exact Hd | exact Hdel | exact Hmove | ].
  eexists. split; [exact Hmissing | reflexivity].
Defined.

(** X5.  [file_exists], [directory_exists] and [get_file_info] return for
    every candidate that the operating system takes (no NUL byte, names
    within the limits), inside the workspace or not, and leave the machine
    as it was. *)
Theorem probes_never_raise (m : Machine) (path : PathArg) :
  well_named path m →
  (∃ b, file_exists path m = (Return b, m))
  ∧ (∃ b, directory_exists path m = (Return b, m))
  ∧ (∃ info, get_file_info path m = (Return info, m)).
Proof.
  intros _. split_and!.
  - apply file_exists_returns.
  - apply directory_exists_returns.
  - apply get_file_info_returns.
Qed.

Lemma probes_never_raise_witness :
  let m := client_on stocked_fs 100 None in
  let p := PStr "../../etc/passwd" in
  well_named p m
  ∧ (∃ b, file_exists p m = (Return b, m))
  ∧ (∃ b, directory_exists p m = (Return b, m))
  ∧ (∃ info, get_file_info p m = (Return info, m)).
Proof.
  assert (well_named (PStr "../../etc/passwd") (client_on stocked_fs 100 None)) as H
    by (by split).
  cbv zeta. split; [exact H|].
  exact (probes_never_raise (client_on stocked_fs 100 None) (PStr "../../etc/passwd") H).
Defined.

(** ** More of the client: helpers *)

(** [frames] replaces every machine that [_record_action] has left by a
    fresh one about which only the frame facts are known. *)
Ltac frames :=
  repeat match goal with
         | H : context [snd (_record_action ?a ?m)] |- _ =>
             pose proof (record_action_frame a m);
             pose proof (history_record_action a m);
             generalize dependent (snd (_record_action a m)); intros
         | |- context [snd (_record_action ?a ?m)] =>
             pose proof (record_action_frame a m);
             pose proof (history_record_action a m);
             generalize dependent (snd (_record_action a m)); intros
         end;
  cbn [self fs heap now cwd set_fs workspace_dir auto_confirm history_size
       patched_confirmation fst snd] in *.

Section MoreHelpers.

Implicit Types (m : Machine) (p q : Path) (fs : gmap Path node).

Lemma relative_to_startswith p base r :
  PathLib.relative_to p base = Some r →
  PyStr.startswith (PathLib.str p) (PathLib.str base) = true.
Proof.
  intros Hr. unfold PyStr.startswith, PathLib.str.
  rewrite (relative_to_app _ _ _ Hr), prefix_app_l. apply join_app_prefix.
Qed.

Lemma mkdir_parents_is_dir p fs fs' :
  OS.mkdir_parents p fs = Return fs' → OS.is_dir fs' p = true.
Proof.
  unfold OS.mkdir_parents. generalize (List.length p) as d. intros d.
  assert (∀ fs0 fs1, OS.mkdir p fs0 = Return fs1 → OS.is_dir fs1 p = true) as Hmk.
  { intros fs0 fs1 (-> & _)%mkdir_inv. unfold OS.is_dir. by rewrite lookup_insert_eq. }
  destruct d as [|d]; cbn; destruct (OS.mkdir p fs) eqn:E;
    try (intros [= <-]; by eapply Hmk).
  - repeat case_match; intros; by simplify_eq.
  - destruct (isinstance _ FileNotFoundError).
    + destruct (OS.mkdir_parents_from d _ fs) eqn:E1; [|done].
      unfold OS.mkdir_exist_ok. destruct (OS.mkdir p a) eqn:E2.
      * intros [= <-]. by eapply Hmk.
      * repeat case_match; intros; by simplify_eq.
    + case_match; intros; by simplify_eq.
Qed.

Lemma well_formed_parent fs p :
  well_formed fs → is_Some (fs !! p) → fs !! PathLib.parent p = Some Dir.
Proof.
  intros [Hroot Hwf] [n Hp]. destruct (decide (p = [])) as [->|Hne]; [done|eauto].
Qed.

(** Making a directory that is there does nothing. *)
Lemma mkdir_parents_existing p fs :
  well_formed fs → OS.is_dir fs p = true → OS.mkdir_parents p fs = Return fs.
Proof.
  intros Hwf Hd. unfold OS.mkdir_parents.
  assert (OS.mkdir p fs = Raise (OS.EEXIST p)) as E.
  { unfold OS.mkdir, OS.exists_, OS.is_dir in *.
    destruct (fs !! p) as [[|]|] eqn:Hp; try done.
    rewrite well_formed_parent_error; [done|done|].
    apply well_formed_parent; [done|]. rewrite Hp; eauto. }
  destruct (List.length p); cbn; rewrite E; cbn; by rewrite Hd.
Qed.

End MoreHelpers.

(** * More of the client *)

(** X6.  In a well-formed file system a successful [create_directory(p)]
    leaves a directory at [p], keeps every entry that was there, adds
    nothing but directories at [p] and at places above [p], and a second
    [create_directory(p)] succeeds and changes no file. *)
Theorem create_directory_idempotent (m m1 : Machine) (path : PathArg) (confirm : bool) :
  well_formed (fs m) →
  create_directory path confirm m = (Return true, m1) →
  OS.is_dir (fs m1) (resolve_arg path m) = true
  ∧ grown_along (resolve_arg path m) (fs m) (fs m1)
  ∧ ∃ m2, create_directory path confirm m1 = (Return true, m2) ∧ fs m2 = fs m1.
Proof.
  intros Hwf E. unfold create_directory in E. run. frames.
  match goal with
  | H : OS.mkdir_parents _ _ = Return ?x |- _ =>
      pose proof (mkdir_parents_is_dir _ _ _ H) as Hd;
      pose proof (mkdir_parents_grows _ _ _ H) as Hg;
      pose proof (mkdir_parents_well_formed _ _ _ Hwf H) as Hwf1
  end.
  destruct H2 as (Hfs & _ & Hcwd & Hws & Hauto & _ & Hpat).
  pose proof (resolve_arg_frame path m m0 Hcwd Hws) as Hres.
  rewrite Hfs. split_and!; [done..|].
  pose proof (mkdir_parents_existing _ _ Hwf1 Hd) as Hagain.
  destruct (create_directory path confirm m0) as [r m2] eqn:E2.
  unfold create_directory in E2. run; frames;
    rewrite ?Hres, ?Hws, ?Hauto, ?Hpat, ?Hfs in *; simplify_eq; try congruence.
  - eexists. split; [reflexivity|]. intuition congruence.
  - match goal with
    | Hf : _ = Some ?f, Hno : ?f _ _ = false |- _ =>
        rewrite (H3 eq_refl ltac:(assumption) f Hf) in Hno; discriminate
    end.
Qed.

Lemma create_directory_idempotent_witness :
  let m := client_on bare_fs 100 None in
  let m1 := snd (create_directory (PStr "b/c") true m) in
  well_formed (fs m)
  ∧ create_directory (PStr "b/c") true m = (Return true, m1)
  ∧ OS.is_dir (fs m1) ["a"; "ws"; "b"; "c"] = true
  ∧ ∃ m2, create_directory (PStr "b/c") true m1 = (Return true, m2) ∧ fs m2 = fs m1.
Proof.
  assert (well_formed (fs (client_on bare_fs 100 None))) as Hwf
    by apply sample_file_systems_well_formed.
  assert (create_directory (PStr "b/c") true (client_on bare_fs 100 None)
          = (Return true,
             snd (create_directory (PStr "b/c") true (client_on bare_fs 100 None))))
    as E by (vm_compute; reflexivity).
  destruct (create_directory_idempotent _ _ (PStr "b/c") true Hwf E) as (H1 & _ & H2).
  cbv zeta. split_and!; [exact Hwf | exact E | exact H1 | exact H2].
Defined.

(** [bodies] opens the [try] bodies that are written as a match. *)
Ltac bodies :=
  repeat match goal with
         | H : match ?x with Return _ => _ | Raise _ => _ end = (_, _) |- _ =>
             destruct x eqn:?; simplify_eq
         end.

Lemma outcome_record_type {A} (a : ActionRecord.t) (r : result A) :
  ActionRecord.action_type (outcome_record a r) = ActionRecord.action_type a.
Proof. by destruct r. Qed.

Ltac read_only :=
  unfold read_only_effect, same_settings; cbn [snd];
  split; [intuition congruence|]; split; [intuition congruence|];
  first [ by left
        | right; eexists; split; [intuition eauto|];
          by rewrite outcome_record_type ].

(** X7.  [read_file] and [list_directory] never change a file, whatever
    their outcome: the file system and the settings of the client stay as
    they were, and the log either stays or grows by one [READ] record. *)
Theorem reading_keeps_files (m : Machine) (path : PathArg) :
  read_only_effect m (snd (read_file path m))
  ∧ read_only_effect m (snd (list_directory path m)).
Proof.
  split.
  - destruct (read_file path m) as [r m'] eqn:E. unfold read_file in E.
    run; bodies; frames; read_only.
  - destruct (list_directory path m) as [r m'] eqn:E. unfold list_directory in E.
    run; bodies; frames; read_only.
Qed.

(** X8.  What [read_file] does with a candidate inside the workspace that
    the operating system takes (no NUL byte, names within the limits): a
    missing path raises [FileNotFoundError] and a directory raises
    [IsADirectoryError], both before anything is recorded or touched; a
    regular file is returned as decoded text, no file changes, and one
    successful [READ] record with the workspace-relative name is logged. *)
Theorem read_file_outcomes (m : Machine) (path : PathArg) :
  well_named path m → inside_workspace path m →
  let p := resolve_arg path m in
  match fs m !! p with
  | None =>
      ∃ e, read_file path m = (Raise e, m) ∧ exn_class_of e = FileNotFoundError
  | Some Dir =>
      ∃ e, read_file path m = (Raise e, m) ∧ exn_class_of e = IsADirectoryError
  | Some (File c) =>
      ∃ m' rel,
        read_file path m = (Return (OS.universal_newlines c), m')
        ∧ fs m' = fs m
        ∧ PathLib.relative_to p (workspace_dir (self m)) = Some rel
        ∧ history m'
          = trim (history_size (self m))
              (history m
               ++ [ActionRecord.mk READ (now m) (Some (PathLib.str_rel rel))
                     None true None false])%list
  end.
Proof.
  intros _ [rel Hrel] p. subst p.
  pose proof (relative_to_startswith _ _ _ Hrel) as Hpre.
  destruct (fs m !! resolve_arg path m) as [[c|]|] eqn:Hp;
    destruct (read_file path m) as [r m'] eqn:E; unfold read_file in E;
    run; bodies; unfold OS.exists_, OS.is_dir, OS.read_text in *;
    rewrite ?Hp in *; simplify_eq; try congruence.
  - eexists _, _. split; [reflexivity|]. frames. split_and!; [tauto|done|].
    by intuition.
  - eexists. by split.
  - eexists. by split.
Qed.

Lemma read_file_outcomes_witness :
  let m := client_on stocked_fs 100 None in
  well_named (PStr "f") m ∧ inside_workspace (PStr "f") m
  ∧ well_named (PStr "d") m ∧ inside_workspace (PStr "d") m
  ∧ (∃ m' rel, read_file (PStr "f") m = (Return "hi", m') ∧ fs m' = fs m
       ∧ PathLib.relative_to ["a"; "ws"; "f"] ["a"; "ws"] = Some rel
       ∧ history m' = trim 100 ([] ++ [ActionRecord.mk READ 0 (Some (PathLib.str_rel rel))
                                         None true None false])%list)
  ∧ (∃ e, read_file (PStr "d") m = (Raise e, m) ∧ exn_class_of e = IsADirectoryError).
Proof.
  assert (inside_workspace (PStr "f") (client_on stocked_fs 100 None)) as Hf
    by (vm_compute; eauto).
  assert (inside_workspace (PStr "d") (client_on stocked_fs 100 None)) as Hd
    by (vm_compute; eauto).
  assert (well_named (PStr "f") (client_on stocked_fs 100 None)) as Hnf by (by split).
  assert (well_named (PStr "d") (client_on stocked_fs 100 None)) as Hnd by (by split).
  cbv zeta. split_and!; [exact Hnf | exact Hf | exact Hnd | exact Hd | | ].
  - exact (read_file_outcomes _ (PStr "f") Hnf Hf).
  - exact (read_file_outcomes _ (PStr "d") Hnd Hd).
Defined.

Section Listing.

Implicit Types (m : Machine) (p q : Path) (fs : gmap Path node).


Lemma iterdir_child_of fs p q : q ∈ OS.iterdir p fs ↔ child_of fs p q.
Proof.
  unfold OS.iterdir, child_of. rewrite list_elem_of_In, filter_In, in_map_iff.
  rewrite bool_decide_eq_true. split.
  - intros [((q' & n) & <- & Hin) Hq]. split; [|done].
    apply list_elem_of_In, elem_of_map_to_list in Hin. cbn. eauto.
  - intros [[n Hn] Hq]. split; [|done]. exists (q, n). split; [done|].
    by apply list_elem_of_In, elem_of_map_to_list.
Qed.



Lemma from_path_describes q base fs info :
  FileInfo.from_path q base fs = Return info → describes fs q info.
Proof.
  unfold FileInfo.from_path, describes, OS.is_dir.
  destruct (fs !! q) as [[c|]|]; intros; simplify_eq; cbn; naive_solver.
Qed.

Lemma collect_infos_all base fs items :
  Forall (fun q => is_Some (fs !! q)) items →
  ∃ infos, collect_infos base fs items = Return infos
           ∧ Forall2 (describes fs) items infos.
Proof.
  induction 1 as [|q items [n Hq] _ (infos & IH & HF)]; [by exists []|].
  change (collect_infos base fs (q :: items))
    with (match FileInfo.from_path q base fs with
          | Raise e => Raise e
          | Return file_info =>
              match collect_infos base fs items with
              | Raise e => Raise e
              | Return results => Return (file_info :: results)
              end
          end).
  destruct (FileInfo.from_path q base fs) as [info|e] eqn:E.
  - rewrite IH. eexists. split; [done|]. constructor; [|done].
    by eapply from_path_describes.
  - unfold FileInfo.from_path in E. by rewrite Hq in E.
Qed.

End Listing.



(** ** Paths as text and back *)

Section PathText.

Implicit Types (w s : string) (p r : Path) (m : Machine).

Lemma append_String c w s : String c w +:+ s = String c (w +:+ s).
Proof. reflexivity. Qed.

Lemma prefix_slash_head c s :
  Ascii.eqb c "/" = false → String.prefix "/" (String c s) = false.
Proof.
  intros Hc.
  change (String.prefix "/" (String c s))
    with (if ascii_dec "/" c then String.prefix "" s else false).
  destruct (ascii_dec "/" c) as [<-|]; [|done]. by rewrite Ascii.eqb_refl in Hc.
Qed.

Lemma split_on_no_slash w : no_slash w = true → PyStr.split_on "/" w = [w].
Proof.
  induction w as [|c w IH]; [done|]. cbn. intros [Hc Hw]%andb_prop.
  apply negb_true_iff in Hc. rewrite Hc, (IH Hw). done.
Qed.

Lemma split_on_app w s :
  no_slash w = true →
  PyStr.split_on "/" (w +:+ "/" +:+ s) = w :: PyStr.split_on "/" s.
Proof.
  induction w as [|c w IH]; [done|]. intros [Hc Hw]%andb_prop.
  apply negb_true_iff in Hc. rewrite append_String. cbn [PyStr.split_on].
  rewrite Hc, (IH Hw). done.
Qed.

Lemma split_on_join r :
  r ≠ [] → Forall (fun w => no_slash w = true) r →
  PyStr.split_on "/" (PyStr.join "/" r) = r.
Proof.
  intros Hne Hr. induction Hr as [|w r Hw Hr IH]; [done|].
  destruct r as [|w' r]; [by apply split_on_no_slash|].
  change (PyStr.join "/" (w :: w' :: r)) with (w +:+ "/" +:+ PyStr.join "/" (w' :: r)).
  rewrite split_on_app by done. f_equal. by apply IH.
Qed.

Lemma proper_part_inv w :
  proper_part w = true →
  PathLib.keep_part w = true ∧ String.eqb w ".." = false ∧ no_slash w = true.
Proof.
  unfold proper_part. intros [[? ?%negb_true_iff]%andb_prop ?]%andb_prop. done.
Qed.

Lemma filter_keep_proper r : proper_path r → List.filter PathLib.keep_part r = r.
Proof.
  induction 1 as [|w r Hw _ IH]; [done|]. cbn.
  apply proper_part_inv in Hw as (-> & _). by rewrite IH.
Qed.

Lemma walk_proper r acc : proper_path r → fold_left PathLib.walk r acc = (acc ++ r)%list.
Proof.
  intros Hr. revert acc. induction Hr as [|w r Hw _ IH]; intros acc; cbn.
  - by rewrite app_nil_r.
  - apply proper_part_inv in Hw as (_ & Hw & _). unfold PathLib.walk at 2.
    rewrite Hw, IH, <- app_assoc. done.
Qed.

Lemma proper_no_slash r : proper_path r → Forall (fun w => no_slash w = true) r.
Proof.
  intros H. eapply Forall_impl; [exact H|]. intros w Hw.
  apply proper_part_inv in Hw. tauto.
Qed.

(** The text of a proper relative path is not absolute and parses back. *)
Lemma parse_str_rel r :
  proper_path r →
  PathLib.parse (PathLib.str_rel r)
  = {| PathLib.anchored := false; PathLib.parts := r |}.
Proof.
  intros Hr. destruct r as [|w r]; [done|].
  unfold PathLib.parse, PathLib.str_rel.
  rewrite split_on_join, filter_keep_proper by (done || by apply proper_no_slash).
  f_equal. inversion Hr as [|? ? Hw _]; subst.
  apply proper_part_inv in Hw as (Hk & _ & Hs).
  destruct w as [|c w]; [done|]. cbn in Hs. apply andb_prop in Hs as [Hc _].
  apply negb_true_iff in Hc. unfold PathLib.isabs, PyStr.startswith.
  destruct r as [|w' r].
  - by apply prefix_slash_head.
  - change (PyStr.join "/" (String c w :: w' :: r))
      with (String c (w +:+ "/" +:+ PyStr.join "/" (w' :: r))).
    by apply prefix_slash_head.
Qed.

(** The text of a proper absolute path is absolute and parses back. *)
Lemma parse_str p :
  proper_path p →
  PathLib.parse (PathLib.str p) = {| PathLib.anchored := true; PathLib.parts := p |}.
Proof.
  intros Hp. unfold PathLib.parse, PathLib.str.
  change ("/" +:+ PyStr.join "/" p) with (String "/" (PyStr.join "/" p)).
  change (PyStr.split_on "/" (String "/" (PyStr.join "/" p)))
    with ("" :: PyStr.split_on "/" (PyStr.join "/" p)).
  f_equal.
  - unfold PathLib.isabs, PyStr.startswith.
    change (String.prefix "/" (String "/" (PyStr.join "/" p)))
      with (if ascii_dec "/" "/" then String.prefix "" (PyStr.join "/" p) else false).
    destruct (ascii_dec "/" "/"); [apply prefix_empty|done].
  - change (List.filter PathLib.keep_part ("" :: ?l))
      with (List.filter PathLib.keep_part l).
    destruct p as [|w p]; [done|].
    by rewrite split_on_join, filter_keep_proper by (done || by apply proper_no_slash).
Qed.

Lemma proper_path_app p r : proper_path (p ++ r) ↔ proper_path p ∧ proper_path r.
Proof. apply Forall_app. Qed.

(** The name that [FileInfo] and [ActionRecord] report for a proper path,
    given back to the client as a string, denotes the path again. *)
Lemma reported_name_resolves p m :
  proper_path p → proper_path (workspace_dir (self m)) →
  resolve_arg
    (PStr match PathLib.relative_to p (workspace_dir (self m)) with
          | Some r => PathLib.str_rel r
          | None => PathLib.str p
          end) m = p.
Proof.
  intros Hp Hws. unfold resolve_arg.
  destruct (PathLib.relative_to p (workspace_dir (self m))) as [r|] eqn:Hr.
  - pose proof (relative_to_app _ _ _ Hr) as ->.
    apply proper_path_app in Hp as [_ Hrp].
    pose proof (parse_str_rel r Hrp) as Hparse.
    assert (PathLib.isabs (PathLib.str_rel r) = false) as ->
      by exact (f_equal PathLib.anchored Hparse).
    cbn [negb]. rewrite Hparse.
    unfold PathLib.resolve, PathLib.joinpath, PathLib.of_path. cbn.
    by rewrite walk_proper by (by apply proper_path_app).
  - pose proof (parse_str p Hp) as Hparse.
    assert (PathLib.isabs (PathLib.str p) = true) as ->
      by exact (f_equal PathLib.anchored Hparse).
    cbn [negb]. rewrite Hparse. unfold PathLib.resolve. cbn.
    by rewrite walk_proper.
Qed.

Lemma split_on_parts_no_slash s :
  Forall (fun w => no_slash w = true) (PyStr.split_on "/" s).
Proof.
  induction s as [|c s IH]; cbn; [by repeat constructor|].
  destruct (Ascii.eqb c "/") eqn:Hc; [by constructor|].
  destruct (PyStr.split_on "/" s) as [|w ws].
  - repeat constructor. cbn. by rewrite Hc.
  - inversion IH; subst. constructor; [cbn; by rewrite Hc|done].
Qed.

Lemma parse_parts s :
  Forall (fun w => PathLib.keep_part w = true ∧ no_slash w = true)
         (PathLib.parts (PathLib.parse s)).
Proof.
  unfold PathLib.parse. cbn [PathLib.parts].
  induction (split_on_parts_no_slash s) as [|w ws Hw _ IH]; cbn; [constructor|].
  destruct (PathLib.keep_part w) eqn:Hk; [by constructor|done].
Qed.

Lemma proper_path_parent p : proper_path p → proper_path (PathLib.parent p).
Proof.
  unfold PathLib.parent. induction 1 as [|w p Hw Hp IH]; [constructor|].
  destruct p as [|w' p]; [constructor|]. by constructor.
Qed.

(** The walk of [resolve] over parsed components leaves only proper ones. *)
Lemma walk_keeps_proper ws acc :
  Forall (fun w => PathLib.keep_part w = true ∧ no_slash w = true) ws →
  proper_path acc → proper_path (fold_left PathLib.walk ws acc).
Proof.
  intros Hws. revert acc. induction Hws as [|w ws [Hk Hs] _ IH]; intros acc Hacc; [done|].
  cbn [fold_left]. apply IH. unfold PathLib.walk.
  destruct (String.eqb w "..") eqn:Hdd; [by apply proper_path_parent|].
  apply proper_path_app. split; [done|]. constructor; [|constructor].
  unfold proper_part. by rewrite Hk, Hdd, Hs.
Qed.

(** A candidate given as a string resolves to a proper path. *)
Lemma resolve_str_proper s m :
  proper_path (workspace_dir (self m)) → proper_path (resolve_arg (PStr s) m).
Proof.
  intros Hws. unfold resolve_arg, PathLib.resolve, PathLib.joinpath, PathLib.of_path.
  change (PathLib.anchored (PathLib.parse s)) with (PathLib.isabs s).
  destruct (PathLib.isabs s) eqn:Habs; cbn [negb PathLib.anchored PathLib.parts].
  - apply walk_keeps_proper; [apply parse_parts|constructor].
  - apply walk_keeps_proper; [|constructor].
    apply Forall_app. split; [|apply parse_parts].
    eapply Forall_impl; [exact Hws|]. intros w Hw.
    apply proper_part_inv in Hw. tauto.
Qed.

(** What [get_file_info] answers, in one equation. *)
Lemma get_file_info_answer path m :
  get_file_info path m
  = (Return (if passes_prefix_test path m then
               match FileInfo.from_path (resolve_arg path m)
                                        (workspace_dir (self m)) (fs m) with
               | Return info => Some info
               | Raise _ => None
               end
             else None), m).
Proof.
  unfold get_file_info, try_except, bind, _validate_path, passes_prefix_test,
    raise, ret, FileInfo.from_path, OS.exists_.
  destruct (PyStr.startswith _ _); [|done]. cbn [negb andb].
  destruct (fs m !! resolve_arg path m) as [n|] eqn:Hp; cbn; rewrite ?Hp; done.
Qed.

End PathText.

(** X10.  The path that [get_file_info] reports for an entry, handed back
    to the client as a string, denotes the same entry: it resolves to the
    same path and [get_file_info] answers with the same information.  The
    workspace root is proper, as every resolved path is. *)
Theorem reported_path_finds_entry (m : Machine) (s : string) (info : FileInfo.t) :
  proper_path (workspace_dir (self m)) →
  get_file_info (PStr s) m = (Return (Some info), m) →
  resolve_arg (PStr (FileInfo.path info)) m = resolve_arg (PStr s) m
  ∧ get_file_info (PStr (FileInfo.path info)) m = (Return (Some info), m).
Proof.
  intros Hws Hinfo. rewrite get_file_info_answer in Hinfo.
  destruct (passes_prefix_test (PStr s) m) eqn:Hpre; [|congruence].
  destruct (FileInfo.from_path _ _ _) as [i|] eqn:Hfrom; [|congruence].
  assert (i = info) as -> by congruence. clear Hinfo.
  pose proof (reported_name_resolves (resolve_arg (PStr s) m) m
                (resolve_str_proper s m Hws) Hws) as Hback.
  assert (FileInfo.path info
          = match PathLib.relative_to (resolve_arg (PStr s) m) (workspace_dir (self m)) with
            | Some r => PathLib.str_rel r
            | None => PathLib.str (resolve_arg (PStr s) m)
            end) as Hpath.
  { unfold FileInfo.from_path in Hfrom.
    destruct (fs m !! resolve_arg (PStr s) m); [|done]. by simplify_eq. }
  rewrite <- Hpath in Hback. split; [done|].
  rewrite get_file_info_answer. unfold passes_prefix_test.
  rewrite Hback. unfold passes_prefix_test in Hpre. by rewrite Hpre, Hfrom.
Qed.

Lemma reported_path_finds_entry_witness :
  let m := client_on stocked_fs 100 None in
  let info := FileInfo.mk "f" "f" false (Some 2) in
  proper_path (workspace_dir (self m))
  ∧ get_file_info (PStr "d/../f") m = (Return (Some info), m)
  ∧ resolve_arg (PStr "f") m = resolve_arg (PStr "d/../f") m
  ∧ get_file_info (PStr "f") m = (Return (Some info), m).
Proof.
  assert (proper_path (workspace_dir (self (client_on stocked_fs 100 None)))) as Hws
    by (by repeat constructor).
  cbv zeta. split; [exact Hws|]. split; [reflexivity|].
  exact (reported_path_finds_entry (client_on stocked_fs 100 None) "d/../f"
           (FileInfo.mk "f" "f" false (Some 2)) Hws eq_refl).
Defined.

(** X11.  A client that [__init__] has built: its workspace is the resolved
    argument and exists afterwards, its settings are the arguments, nothing
    shadows the confirmation method, and its log is a new empty list that
    no list object of the heap before the call is (the logs of other
    clients stay as they are).  A workspace that was there is taken as it
    is, be it a directory or a regular file; a missing one is created as a
    directory, and whatever else is new is a directory at a place above
    it. *)
Theorem init_prepares_workspace (m m1 : Machine) (workspace : PathArg)
    (auto : bool) (size : Z) :
  __init__ workspace auto size m = (Return tt, m1) →
  let ws := workspace_of workspace m in
  workspace_dir (self m1) = ws
  ∧ auto_confirm (self m1) = auto ∧ history_size (self m1) = size ∧ shipped m1
  ∧ history m1 = []
  ∧ (action_history (self m1) ∉ dom (heap m))
  ∧ (∀ l, l ∈ dom (heap m) → heap m1 !! l = heap m !! l)
  ∧ OS.exists_ (fs m1) ws = true
  ∧ (OS.exists_ (fs m) ws = true → fs m1 = fs m)
  ∧ (OS.exists_ (fs m) ws = false → OS.is_dir (fs m1) ws = true)
  ∧ grown_along ws (fs m) (fs m1).
Proof.
  intros E ws. unfold __init__ in E. fold (workspace_of workspace m) in E. fold ws in E.
  cbn [fs] in E.
  assert (∀ l, l ∈ dom (heap m) →
               (<[fresh (dom (heap m)) := []]> (heap m)) !! l = heap m !! l) as Hold.
  { intros l Hl. apply lookup_insert_ne. intros <-. by apply is_fresh in Hl. }
  destruct (OS.exists_ (fs m) ws) eqn:Hex; cbn [negb] in E.
  - apply ret_inv in E as [_ Hm]. subst m1. unfold shipped, history, deref. cbn.
    rewrite lookup_insert_eq. split_and!; try done.
    + apply is_fresh.
    + apply grown_along_refl.
  - apply os_call_inv in E as (fs' & Hmk & Hm). subst m1. cbn [fs] in Hmk.
    pose proof (mkdir_parents_is_dir _ _ _ Hmk) as Hd.
    unfold shipped, history, deref. cbn. rewrite lookup_insert_eq.
    split_and!; try done.
    + apply is_fresh.
    + unfold OS.exists_, OS.is_dir in *. by destruct (fs' !! ws).
    + by apply mkdir_parents_grows.
Qed.

Lemma init_prepares_workspace_witness :
  let m := client_on bare_fs 100 None in
  let m1 := snd (__init__ (PStr "a/ws/new/deep") true 7 m) in
  __init__ (PStr "a/ws/new/deep") true 7 m = (Return tt, m1)
  ∧ workspace_dir (self m1) = ["a"; "ws"; "new"; "deep"]
  ∧ OS.is_dir (fs m1) ["a"; "ws"; "new"; "deep"] = true
  ∧ history m1 = [] ∧ (action_history (self m1) ∉ dom (heap m)).
Proof.
  cbv zeta.
  assert (__init__ (PStr "a/ws/new/deep") true 7 (client_on bare_fs 100 None)
          = (Return tt, snd (__init__ (PStr "a/ws/new/deep") true 7
                               (client_on bare_fs 100 None)))) as E
    by (vm_compute; reflexivity).
  pose proof (init_prepares_workspace _ _ _ _ _ E) as H. cbv zeta in H.
  destruct H as (Hw & _ & _ & _ & Hh & Hf & _ & _ & _ & Hd & _).
  split_and!; [exact E | exact Hw | exact (Hd eq_refl) | exact Hh | exact Hf].
Defined.

(** ** Deleting *)

Section ProbeAnswers.

Implicit Types (m : Machine) (path : PathArg).

(** What [file_exists] and [directory_exists] answer, in one equation. *)
Lemma file_exists_answer path m :
  file_exists path m
  = (Return (passes_prefix_test path m
             && OS.exists_ (fs m) (resolve_arg path m)
             && OS.is_file (fs m) (resolve_arg path m)), m).
Proof.
  unfold file_exists, try_except, bind, _validate_path, passes_prefix_test,
    raise, ret, os_query.
  destruct (PyStr.startswith _ _); done.
Qed.

Lemma directory_exists_answer path m :
  directory_exists path m
  = (Return (passes_prefix_test path m
             && OS.exists_ (fs m) (resolve_arg path m)
             && OS.is_dir (fs m) (resolve_arg path m)), m).
Proof.
  unfold directory_exists, try_except, bind, _validate_path, passes_prefix_test,
    raise, ret, os_query.
  destruct (PyStr.startswith _ _); done.
Qed.

End ProbeAnswers.

(** X12.  What [delete_file] does on a client as shipped with a candidate
    inside the workspace that the operating system takes (no NUL byte,
    names within the limits): a missing path raises [FileNotFoundError] and a
    directory raises [IsADirectoryError], both leaving no trace; a regular
    file is removed and nothing else changes, one successful [WRITE]
    record with the workspace-relative name is logged, marked as approved
    by the user exactly when a confirmation was due, and [file_exists]
    answers [False] afterwards. *)
Theorem delete_file_outcomes (m : Machine) (path : PathArg) (confirm : bool) :
  shipped m → well_named path m → inside_workspace path m →
  let p := resolve_arg path m in
  match fs m !! p with
  | None =>
      ∃ e, delete_file path confirm m = (Raise e, m)
           ∧ exn_class_of e = FileNotFoundError
  | Some Dir =>
      ∃ e, delete_file path confirm m = (Raise e, m)
           ∧ exn_class_of e = IsADirectoryError
  | Some (File c) =>
      ∃ m' rel,
        delete_file path confirm m = (Return true, m')
        ∧ fs m' = delete p (fs m)
        ∧ PathLib.relative_to p (workspace_dir (self m)) = Some rel
        ∧ history m'
          = trim (history_size (self m))
              (history m
               ++ [ActionRecord.mk WRITE (now m) (Some (PathLib.str_rel rel))
                     None true None (confirm && negb (auto_confirm (self m)))])%list
        ∧ file_exists path m' = (Return false, m')
  end.
Proof.
  intros Hship _ [rel Hrel] p. subst p. unfold shipped in Hship.
  pose proof (relative_to_startswith _ _ _ Hrel) as Hpre.
  destruct (fs m !! resolve_arg path m) as [[c|]|] eqn:Hp;
    destruct (delete_file path confirm m) as [r m'] eqn:E; unfold delete_file in E;
    run; bodies; unfold OS.exists_, OS.is_dir, OS.remove in *;
    rewrite ?Hp in *; simplify_eq; try congruence.
  - eexists _, rel. split; [reflexivity|]. cbn [outcome_record].
    assert (ActionRecord.set_success true
              (if confirm && negb (auto_confirm (self m))
               then ActionRecord.set_user_approved true
                      (ActionRecord.create (now m) WRITE (Some (PathLib.str_rel rel)))
               else ActionRecord.create (now m) WRITE (Some (PathLib.str_rel rel)))
            = ActionRecord.mk WRITE (now m) (Some (PathLib.str_rel rel)) None true None
                (confirm && negb (auto_confirm (self m)))) as ->
      by (by destruct (confirm && negb (auto_confirm (self m)))).
    frames.
    match goal with
    | H : _ ∧ _ |- _ => destruct H as (Hfs & _ & Hcwd & Hws & _)
    end.
    split_and!; [done|done|done|].
    rewrite file_exists_answer. unfold passes_prefix_test, OS.exists_.
    rewrite (resolve_arg_frame path m) by done.
    by rewrite Hfs, lookup_delete_eq, andb_false_r.
  - eexists. by split.
  - eexists. by split.
Qed.

Lemma delete_file_outcomes_witness :
  let m := client_on stocked_fs 100 None in
  shipped m
  ∧ well_named (PStr "f") m ∧ inside_workspace (PStr "f") m
  ∧ well_named (PStr "d") m ∧ inside_workspace (PStr "d") m
  ∧ (∃ m' rel,
       delete_file (PStr "f") true m = (Return true, m')
       ∧ fs m' = delete ["a"; "ws"; "f"] (fs m)
       ∧ PathLib.relative_to ["a"; "ws"; "f"] ["a"; "ws"] = Some rel
       ∧ history m'
         = trim 100 ([] ++ [ActionRecord.mk WRITE 0 (Some (PathLib.str_rel rel))
                              None true None true])%list
       ∧ file_exists (PStr "f") m' = (Return false, m'))
  ∧ (∃ e, delete_file (PStr "d") true m = (Raise e, m)
          ∧ exn_class_of e = IsADirectoryError).
Proof.
  assert (inside_workspace (PStr "f") (client_on stocked_fs 100 None)) as Hf
    by (vm_compute; eauto).
  assert (inside_workspace (PStr "d") (client_on stocked_fs 100 None)) as Hd
    by (vm_compute; eauto).
  assert (well_named (PStr "f") (client_on stocked_fs 100 None)) as Hnf by (by split).
  assert (well_named (PStr "d") (client_on stocked_fs 100 None)) as Hnd by (by split).
  cbv zeta. split_and!; [reflexivity | exact Hnf | exact Hf | exact Hnd | exact Hd | | ].
  - exact (delete_file_outcomes (client_on stocked_fs 100 None) (PStr "f") true
             eq_refl Hnf Hf).
  - exact (delete_file_outcomes (client_on stocked_fs 100 None) (PStr "d") true
             eq_refl Hnd Hd).
Defined.

(** ** Transfers into a directory *)

Section IntoDirectory.

Implicit Types (m : Machine) (src dst : Path) (fs : gmap Path node).


Lemma snoc_not_root dst w : (dst ++ [w])%list ≠ [].
Proof. by destruct dst. Qed.



End IntoDirectory.



(** ** What the client raises *)

Ltac plain :=
  unfold plain_failure;
  match goal with
  | Hs : shipped _, H : patched_confirmation _ = Some _ |- _ =>
      unfold shipped in Hs; cbn in Hs; congruence
  | |- isinstance {| exn_class_of := ?c |} OSError = true ∨ _ =>
      first [ by left | by (right; left) | by (right; right) ]
  | H : _ = Raise ?e |- isinstance ?e OSError = true ∨ _ =>
      left;
      first [ eapply mkdir_parents_raises, H | eapply write_data_raises, H
            | eapply remove_raises, H | eapply move_raises, H
            | eapply copy2_raises, H | eapply read_text_raises, H ]
  end.

Section Failures.

Implicit Types (m : Machine) (path source destination : PathArg).

Lemma collect_infos_raises base fs items e :
  collect_infos base fs items = Raise e → isinstance e OSError = true.
Proof.
  induction items as [|q items IH]; cbn; [done|].
  destruct (FileInfo.from_path q base fs) eqn:Eq.
  - destruct (collect_infos base fs items); [done|]. intros [= <-]. by apply IH.
  - intros [= <-]. by eapply from_path_raises.
Qed.

Lemma read_file_failures path m e m' :
  read_file path m = (Raise e, m') → plain_failure e.
Proof. intros E. unfold read_file in E. run; bodies; plain. Qed.

Lemma list_directory_failures path m e m' :
  list_directory path m = (Raise e, m') → plain_failure e.
Proof.
  intros E. unfold list_directory in E. run; try plain.
  left. eapply collect_infos_raises. unfold collect_infos. eassumption.
Qed.

Lemma write_file_failures path content confirm m e m' :
  shipped m → write_file path content confirm m = (Raise e, m') → plain_failure e.
Proof. intros Hs E. unfold write_file in E. run; plain. Qed.

Lemma create_directory_failures path confirm m e m' :
  shipped m → create_directory path confirm m = (Raise e, m') → plain_failure e.
Proof. intros Hs E. unfold create_directory in E. run; plain. Qed.

Lemma delete_file_failures path confirm m e m' :
  shipped m → delete_file path confirm m = (Raise e, m') → plain_failure e.
Proof. intros Hs E. unfold delete_file in E. run; plain. Qed.

Lemma move_file_failures source destination confirm m e m' :
  shipped m → move_file source destination confirm m = (Raise e, m') → plain_failure e.
Proof. intros Hs E. unfold move_file in E. run; plain. Qed.

Lemma copy_file_failures source destination confirm m e m' :
  shipped m → copy_file source destination confirm m = (Raise e, m') → plain_failure e.
Proof. intros Hs E. unfold copy_file in E. run; plain. Qed.

Lemma plain_failure_code e :
  plain_failure e →
  exit_code_scheme (exn_class_of e) = 1 ∨ exit_code_scheme (exn_class_of e) = 2
  ∨ exit_code_scheme (exn_class_of e) = 5.
Proof.
  unfold plain_failure, isinstance. destruct e as [[] msg]; cbn; intros [H|[H|H]];
    try discriminate; auto.
Qed.

End Failures.

Section CommandLine.

Implicit Types (m : Machine) (args : CLI.Args).

Lemma run_failures args m e m' :
  shipped m → CLI.run args m = (Raise e, m') → plain_failure e.
Proof.
  intros Hs. unfold CLI.run, bind, ret.
  destruct (CLI.command args) as [p|p c|p j|p|p|s d|s d|p [[]|]|p|];
    rewrite ?file_exists_answer, ?directory_exists_answer, ?get_file_info_answer;
    repeat case_match; rewrite ?file_exists_answer, ?directory_exists_answer in *;
    intros; simplify_eq;
    eauto using read_file_failures, write_file_failures, list_directory_failures,
      create_directory_failures, delete_file_failures, move_file_failures,
      copy_file_failures.
Qed.

Lemma make_client_shipped args m m1 :
  CLI.make_client args m = (Return tt, m1) → shipped m1.
Proof.
  unfold CLI.make_client, bind, ret. intros E.
  by apply init_allocates in E as (_ & _ & _ & ?).
Qed.

Lemma make_client_failures args m e m1 :
  CLI.make_client args m = (Raise e, m1) → isinstance e OSError = true.
Proof.
  unfold CLI.make_client, bind, ret, __init__. case_match; [|done].
  intros E. apply os_call_inv in E as [E _]. by eapply mkdir_parents_raises.
Qed.

End CommandLine.

(** X14.  The command line never ends with exit code 3 (cancelled) or 4
    (other TinyFS error): [execute_command] builds a client of its own,
    whose confirmation always approves, and the operations of such a client
    raise only errors of the OS layer, [PathValidationError] and
    [ValueError].  When [execute_command] raises, the exception is an
    [OSError] of the client's construction. *)
Theorem command_line_exit_codes (args : CLI.Args) (m : Machine) :
  match CLI.execute_command args m with
  | (Return code, _) => code = 0 ∨ code = 1 ∨ code = 2 ∨ code = 5
  | (Raise e, m') =>
      CLI.make_client args m = (Raise e, m') ∧ isinstance e OSError = true
  end.
Proof.
  unfold CLI.execute_command, bind.
  destruct (CLI.make_client args m) as [[[]|e] m1] eqn:Ec.
  - apply make_client_shipped in Ec. unfold CLI.try_handlers.
    destruct (CLI.run args m1) as [[code|e] m2] eqn:E.
    + apply run_codes in E. tauto.
    + rewrite handle_scheme.
      apply run_failures, plain_failure_code in E; tauto.
  - split; [done|]. by eapply make_client_failures.
Qed.

(** ** What the log says *)

Section RecordContents.

Implicit Types (m : Machine) (path source destination : PathArg).

Lemma os_error_is_not_cancelled {A} e :
  isinstance e OSError = true → is_cancelled (Raise e : result A) = false.
Proof.
  intros H. unfold is_cancelled. apply bool_decide_eq_false.
  by apply os_error_not_cancelled.
Qed.

End RecordContents.

Ltac os_raise :=
  match goal with
  | H : _ = Raise ?e |- _ =>
      first [ eapply mkdir_parents_raises, H | eapply write_data_raises, H
            | eapply remove_raises, H | eapply move_raises, H
            | eapply copy2_raises, H ]
  end.

Ltac logged :=
  first
    [ done
    | congruence
    | unfold logs; cbn [fst snd]; rewrite history_record_action;
      cbn [self fs heap now cwd set_fs workspace_dir auto_confirm
           history_size patched_confirmation]; rewrite ?history_set_fs;
      do 2 f_equal; unfold audit_record, outcome_record, cancelled_record;
      rewrite ?os_error_is_not_cancelled by os_raise;
      repeat match goal with
             | H : auto_confirm (self _) = _ |- _ => rewrite H
             end;
      cbn; repeat case_match; simplify_eq; try done;
      cbn in *; congruence ].

(** X15.  What the record of a mutating call holds, once the checks that
    precede it have passed: the type [WRITE], the clock reading of the call,
    the workspace-relative name (for a transfer, source and destination
    joined by an arrow), whether the call returned, the message of the
    exception (for a cancellation, the fixed text "Operation cancelled by
    user"), and [user_approved] set exactly when a confirmation was due
    (confirm is on, auto-confirm is off) and the call was not cancelled. *)
Theorem record_of_every_mutation (m : Machine) (path source destination : PathArg)
    (content : string) (confirm : bool) :
  match fst (write_file_checks path m) with
  | Return (_, rel) => logs m rel confirm (write_file path content confirm m)
  | Raise _ => True
  end
  ∧ match fst (create_directory_checks path m) with
    | Return (_, rel) => logs m rel confirm (create_directory path confirm m)
    | Raise _ => True
    end
  ∧ match fst (delete_file_checks path m) with
    | Return (_, rel) => logs m rel confirm (delete_file path confirm m)
    | Raise _ => True
    end
  ∧ match fst (transfer_checks "Use move_directory for directories: "
                 source destination m) with
    | Return (_, _, rel_src, rel_dest) =>
        logs m (rel_src +:+ " -> " +:+ rel_dest) confirm
             (move_file source destination confirm m)
    | Raise _ => True
    end
  ∧ match fst (transfer_checks "Use copy_directory for directories: "
                 source destination m) with
    | Return (_, _, rel_src, rel_dest) =>
        logs m (rel_src +:+ " -> " +:+ rel_dest) confirm
             (copy_file source destination confirm m)
    | Raise _ => True
    end.
Proof.
  split_and!.
  - destruct (write_file_checks path m) as [rc mc] eqn:Ec.
    destruct (write_file path content confirm m) as [r m'] eqn:E.
    unfold write_file_checks in Ec. unfold write_file in E.
    run; cbn [fst snd]; logged.
  - destruct (create_directory_checks path m) as [rc mc] eqn:Ec.
    destruct (create_directory path confirm m) as [r m'] eqn:E.
    unfold create_directory_checks in Ec. unfold create_directory in E.
    run; cbn [fst snd]; logged.
  - destruct (delete_file_checks path m) as [rc mc] eqn:Ec.
    destruct (delete_file path confirm m) as [r m'] eqn:E.
    unfold delete_file_checks in Ec. unfold delete_file in E.
    run; cbn [fst snd]; logged.
  - destruct (transfer_checks _ source destination m) as [rc mc] eqn:Ec.
    destruct (move_file source destination confirm m) as [r m'] eqn:E.
    unfold transfer_checks in Ec. unfold move_file in E.
    run; cbn [fst snd]; logged.
  - destruct (transfer_checks _ source destination m) as [rc mc] eqn:Ec.
    destruct (copy_file source destination confirm m) as [r m'] eqn:E.
    unfold transfer_checks in Ec. unfold copy_file in E.
    run; cbn [fst snd]; logged.
Qed.

(** ** An entry of the other kind *)



(** ** What a mutation leaves alone *)

Section OtherEntries.

Implicit Types (p q src dst : Path) (fs : gmap Path node) (T : list Path).

Lemma keeps_refl T fs : keeps_other_entries T fs fs.
Proof. intros q _. by left. Qed.

Lemma keeps_trans T fs fs1 fs2 :
  keeps_other_entries T fs fs1 → keeps_other_entries T fs1 fs2 →
  keeps_other_entries T fs fs2.
Proof.
  intros H1 H2 q Hq. destruct (H1 q Hq) as [E1|[E1 E1']], (H2 q Hq) as [E2|[E2 E2']];
    first [ left; congruence | right; split; congruence | congruence ].
Qed.

Lemma keeps_mkdir_parents T p fs fs' :
  OS.mkdir_parents p fs = Return fs' → keeps_other_entries T fs fs'.
Proof.
  intros H%mkdir_parents_grows q _. destruct (H q) as [?|(? & ? & _)]; auto.
Qed.

Lemma keeps_write_data T p c fs fs' :
  p ∈ T → OS.write_data p c fs = Return fs' → keeps_other_entries T fs fs'.
Proof.
  intros Hp H q Hq. left. unfold OS.write_data in H.
  repeat case_match; simplify_eq; apply lookup_insert_ne; by intros ->.
Qed.

Lemma keeps_remove T p fs fs' :
  p ∈ T → OS.remove p fs = Return fs' → keeps_other_entries T fs fs'.
Proof.
  intros Hp H q Hq. left. unfold OS.remove in H.
  repeat case_match; simplify_eq; apply lookup_delete_ne; by intros ->.
Qed.

Lemma keeps_copy2 T src dst fs fs' :
  dst ∈ T → (dst ++ [PathLib.name src])%list ∈ T →
  Shutil.copy2 src dst fs = Return fs' → keeps_other_entries T fs fs'.
Proof.
  intros Hd Hi H. unfold Shutil.copy2 in H.
  destruct (OS.is_dir fs dst); repeat case_match; simplify_eq;
    (eapply keeps_write_data; [|eassumption]); done.
Qed.

Lemma keeps_rename_file T src dst c fs fs' :
  src ∈ T → dst ∈ T →
  OS.rename_file src dst c fs = Return fs' → keeps_other_entries T fs fs'.
Proof.
  intros Hs Hd H q Hq. left. unfold OS.rename_file in H.
  repeat case_match; simplify_eq; [done|].
  rewrite lookup_insert_ne, lookup_delete_ne; [done| |]; by intros ->.
Qed.

Lemma keeps_rename_or_copy T src dst c fs fs' :
  src ∈ T → dst ∈ T → OS.is_dir fs dst = false →
  Shutil.rename_or_copy src dst c fs = Return fs' → keeps_other_entries T fs fs'.
Proof.
  intros Hs Hd Hnd H. unfold Shutil.rename_or_copy in H.
  destruct (OS.rename_file src dst c fs) eqn:Hr.
  - simplify_eq. eapply keeps_rename_file; [| |exact Hr]; done.
  - destruct (Shutil.copy2 src dst fs) eqn:Hc; [|done].
    eapply keeps_trans; [|eapply keeps_remove; [|exact H]; done].
    unfold Shutil.copy2 in Hc. rewrite Hnd in Hc.
    repeat case_match; simplify_eq; (eapply keeps_write_data; [|eassumption]); done.
Qed.

Lemma keeps_move T src dst fs fs' :
  src ∈ T → dst ∈ T → (dst ++ [PathLib.name src])%list ∈ T →
  Shutil.move src dst fs = Return fs' → keeps_other_entries T fs fs'.
Proof.
  intros Hs Hd Hi H. unfold Shutil.move in H.
  destruct (fs !! src) as [[c|]|]; try done.
  destruct (OS.is_dir fs dst) eqn:Hdir.
  - destruct (OS.exists_ fs _) eqn:Hex; [done|].
    eapply keeps_rename_or_copy; [| | |exact H]; try done.
    unfold OS.exists_, OS.is_dir in *. by case_match.
  - eapply keeps_rename_or_copy; [| | |exact H]; done.
Qed.

End OtherEntries.

Ltac kept :=
  cbn [fst snd]; rewrite ?record_action_fs;
  cbn [self fs heap now cwd set_fs workspace_dir auto_confirm history_size
       patched_confirmation];
  repeat match goal with
         | H : OS.mkdir_parents _ _ = Return _ |- keeps_other_entries ?T _ _ =>
             apply (keeps_mkdir_parents T) in H
         | H : OS.write_data _ _ _ = Return _ |- keeps_other_entries ?T _ _ =>
             apply (keeps_write_data T) in H; [|set_solver]
         | H : OS.remove _ _ = Return _ |- keeps_other_entries ?T _ _ =>
             apply (keeps_remove T) in H; [|set_solver]
         | H : Shutil.copy2 _ _ _ = Return _ |- keeps_other_entries ?T _ _ =>
             apply (keeps_copy2 T) in H; [|set_solver..]
         | H : Shutil.move _ _ _ = Return _ |- keeps_other_entries ?T _ _ =>
             apply (keeps_move T) in H; [|set_solver..]
         end;
  eauto using keeps_refl, keeps_trans.

(** X17.  A mutating call changes nothing away from its targets, whatever
    its outcome: every other path holds afterwards what it held before, or
    a directory that the call has made on the way.  The target of
    [write_file] and [delete_file] is the resolved path; [create_directory]
    has none, so it never changes or removes an entry; [copy_file] may
    write the destination or the source's name inside it, and [move_file]
    may also remove the source. *)
Theorem mutations_keep_other_entries (m : Machine) (path source destination : PathArg)
    (content : string) (confirm : bool) :
  let p := resolve_arg path m in
  let src := resolve_arg source m in
  let dst := resolve_arg destination m in
  let inner := (dst ++ [PathLib.name src])%list in
  keeps_other_entries [p] (fs m) (fs (snd (write_file path content confirm m)))
  ∧ keeps_other_entries [] (fs m) (fs (snd (create_directory path confirm m)))
  ∧ keeps_other_entries [p] (fs m) (fs (snd (delete_file path confirm m)))
  ∧ keeps_other_entries [dst; inner] (fs m)
      (fs (snd (copy_file source destination confirm m)))
  ∧ keeps_other_entries [src; dst; inner] (fs m)
      (fs (snd (move_file source destination confirm m))).
Proof.
  cbv zeta. split_and!.
  - destruct (write_file path content confirm m) as [r m'] eqn:E.
    unfold write_file in E. run; kept.
  - destruct (create_directory path confirm m) as [r m'] eqn:E.
    unfold create_directory in E. run; kept.
  - destruct (delete_file path confirm m) as [r m'] eqn:E.
    unfold delete_file in E. run; kept.
  - destruct (copy_file source destination confirm m) as [r m'] eqn:E.
    unfold copy_file in E. run; kept.
  - destruct (move_file source destination confirm m) as [r m'] eqn:E.
    unfold move_file in E. run; kept.
Qed.

(** ** The shell commands *)

Section ShellCommands.

Implicit Types (m : Machine) (path : PathArg) (arg : string).

Lemma isinstance_Exception e : isinstance e Exception = true.
Proof. by destruct e as [[] msg]. Qed.

(** A body under [except Exception] returns. *)
Lemma caught_returns (body : M unit) m :
  fst (try_except body [Exception] tt m) = Return tt.
Proof.
  unfold try_except. destruct (body m) as [[[]|e] m1]; [done|].
  cbn [existsb]. by rewrite isinstance_Exception.
Qed.

Lemma caught_state (body : M unit) m :
  snd (try_except body [Exception] tt m) = snd (body m).
Proof.
  unfold try_except. destruct (body m) as [[[]|e] m1]; [done|].
  cbn [existsb]. by rewrite isinstance_Exception.
Qed.

Lemma then_unit_state {A} (c : M A) m : snd ((c ;;; ret tt) m) = snd (c m).
Proof. unfold bind, ret. by destruct (c m) as [[a|e] m1]. Qed.

Lemma read_file_keeps_fs path m : fs (snd (read_file path m)) = fs m.
Proof.
  destruct (read_file path m) as [r m'] eqn:E. unfold read_file in E.
  run; bodies; cbn [snd]; by rewrite ?record_action_fs.
Qed.

Lemma list_directory_keeps_fs path m : fs (snd (list_directory path m)) = fs m.
Proof.
  destruct (list_directory path m) as [r m'] eqn:E. unfold list_directory in E.
  run; bodies; cbn [snd]; by rewrite ?record_action_fs.
Qed.

End ShellCommands.

(** X18.  A line given to the shell command [fs] never makes it raise,
    whatever the client does with it, and it changes a file only when its
    first word, in any letter case, is one of [mkdir] and [delete] followed
    by a path or one of [write], [move] and [copy] followed by two words:
    every other line, among them a mutating sub-command that lacks a word,
    leaves the file system as it is. *)
Theorem shell_line_effects (arg : string) (m : Machine) :
  fst (Shell.do_fs arg m) = Return tt
  ∧ (names_mutation arg = false → fs (snd (Shell.do_fs arg m)) = fs m).
Proof.
  unfold Shell.do_fs, names_mutation.
  destruct (List.length (PyStr.split arg) =? 0)%nat eqn:Hlen; [done|].
  split; [apply caught_returns|]. rewrite caught_state.
  generalize (PyStr.lower (Shell.item 0 (PyStr.split arg))) as cmd.
  generalize (PyStr.split arg) as args. clear Hlen. intros args cmd.
  repeat match goal with
         | |- context [String.eqb cmd ?w] =>
             destruct (String.eqb_spec cmd w) as [->|?]
         end;
    repeat match goal with
           | |- context [String.eqb (String ?c ?a) ?b] =>
               let v := eval vm_compute in (String.eqb (String c a) b) in
               change (String.eqb (String c a) b) with v
           end;
    cbv iota;
    repeat match goal with
           | |- context [(?a <? ?b)%nat] => destruct (Nat.ltb_spec a b)
           | |- context [(?a <=? ?b)%nat] => destruct (Nat.leb_spec a b)
           end;
    cbn [orb andb]; intros Hmut;
    try done; try lia;
    rewrite ?then_unit_state, ?read_file_keeps_fs, ?list_directory_keeps_fs,
      ?get_file_info_answer; try done;
    unfold bind; repeat case_match;
    rewrite ?file_exists_answer, ?directory_exists_answer in *; by simplify_eq.
Qed.

(** ** Where the content of a file comes from *)

Section Contents.

Implicit Types (p q src dst : Path) (fs : gmap Path node) (P : string → Prop).

Lemma content_refl P fs : no_new_content_but P fs fs.
Proof. intros q c Hq. left. by exists q. Qed.

Lemma content_trans P fs fs1 fs2 :
  no_new_content_but P fs fs1 → no_new_content_but P fs1 fs2 →
  no_new_content_but P fs fs2.
Proof.
  intros H1 H2 q c Hq. destruct (H2 q c Hq) as [[q' Hq']|?]; [|by right].
  by eapply H1.
Qed.

Lemma content_mkdir_parents P p fs fs' :
  OS.mkdir_parents p fs = Return fs' → no_new_content_but P fs fs'.
Proof.
  intros H%mkdir_parents_grows q c Hq. left. exists q.
  destruct (H q) as [<-|(_ & ? & _)]; [done|congruence].
Qed.

Lemma content_write_data P p c fs fs' :
  holds_content fs c ∨ P c →
  OS.write_data p c fs = Return fs' → no_new_content_but P fs fs'.
Proof.
  intros Hc H q c' Hq. unfold OS.write_data in H.
  repeat case_match; simplify_eq;
    (destruct (decide (q = p)) as [->|Hne];
     [ rewrite lookup_insert_eq in Hq; by simplify_eq
     | rewrite lookup_insert_ne in Hq by done; left; by exists q ]).
Qed.

Lemma content_remove P p fs fs' :
  OS.remove p fs = Return fs' → no_new_content_but P fs fs'.
Proof.
  intros H q c Hq. unfold OS.remove in H. repeat case_match; simplify_eq.
  apply lookup_delete_Some in Hq as [_ Hq]. left. by exists q.
Qed.

Lemma content_copy2 P src dst fs fs' :
  Shutil.copy2 src dst fs = Return fs' → no_new_content_but P fs fs'.
Proof.
  intros H. unfold Shutil.copy2 in H.
  destruct (fs !! src) as [[c|]|] eqn:Hsrc; repeat case_match; simplify_eq;
    (eapply content_write_data; [|eassumption]); left; by exists src.
Qed.

Lemma content_move P src dst fs fs' :
  Shutil.move src dst fs = Return fs' → no_new_content_but P fs fs'.
Proof.
  intros H. unfold Shutil.move in H.
  destruct (fs !! src) as [[c|]|] eqn:Hsrc; try done.
  assert (∀ d, Shutil.rename_or_copy src d c fs = Return fs' →
               no_new_content_but P fs fs') as Hroc.
  { intros d Hd. unfold Shutil.rename_or_copy in Hd.
    destruct (OS.rename_file src d c fs) eqn:Hr.
    - simplify_eq. unfold OS.rename_file in Hr.
      destruct (OS.parent_error fs d); [done|].
      destruct (decide (src = d)); [simplify_eq; apply content_refl|].
      destruct (OS.is_dir fs d); simplify_eq.
      intros q c' Hq. left. destruct (decide (q = d)) as [->|Hne].
      + rewrite lookup_insert_eq in Hq. simplify_eq. by exists src.
      + rewrite lookup_insert_ne in Hq by done.
        apply lookup_delete_Some in Hq as [_ Hq]. by exists q.
    - destruct (Shutil.copy2 src d fs) eqn:Hc; [|done].
      eapply content_trans; [by eapply content_copy2|by eapply content_remove]. }
  repeat case_match; simplify_eq; by eapply Hroc.
Qed.

End Contents.

Ltac sourced :=
  cbn [fst snd]; rewrite ?record_action_fs;
  cbn [self fs heap now cwd set_fs workspace_dir auto_confirm history_size
       patched_confirmation];
  repeat match goal with
         | H : OS.mkdir_parents _ _ = Return _ |- no_new_content_but ?P _ _ =>
             apply (content_mkdir_parents P) in H
         | H : OS.write_data _ _ _ = Return _ |- no_new_content_but ?P _ _ =>
             apply (content_write_data P) in H; [|by right]
         | H : OS.remove _ _ = Return _ |- no_new_content_but ?P _ _ =>
             apply (content_remove P) in H
         | H : Shutil.copy2 _ _ _ = Return _ |- no_new_content_but ?P _ _ =>
             apply (content_copy2 P) in H
         | H : Shutil.move _ _ _ = Return _ |- no_new_content_but ?P _ _ =>
             apply (content_move P) in H
         end;
  eauto using content_refl, content_trans.

Section ClientContents.

Implicit Types (m : Machine) (path source destination : PathArg) (P : string → Prop).

Lemma write_file_content path content confirm m :
  no_new_content_but (eq content) (fs m) (fs (snd (write_file path content confirm m))).
Proof.
  destruct (write_file path content confirm m) as [r m'] eqn:E.
  unfold write_file in E. run; sourced.
Qed.

Lemma create_directory_content P path confirm m :
  no_new_content_but P (fs m) (fs (snd (create_directory path confirm m))).
Proof.
  destruct (create_directory path confirm m) as [r m'] eqn:E.
  unfold create_directory in E. run; sourced.
Qed.

Lemma delete_file_content P path confirm m :
  no_new_content_but P (fs m) (fs (snd (delete_file path confirm m))).
Proof.
  destruct (delete_file path confirm m) as [r m'] eqn:E.
  unfold delete_file in E. run; sourced.
Qed.

Lemma move_file_content P source destination confirm m :
  no_new_content_but P (fs m) (fs (snd (move_file source destination confirm m))).
Proof.
  destruct (move_file source destination confirm m) as [r m'] eqn:E.
  unfold move_file in E. run; sourced.
Qed.

Lemma copy_file_content P source destination confirm m :
  no_new_content_but P (fs m) (fs (snd (copy_file source destination confirm m))).
Proof.
  destruct (copy_file source destination confirm m) as [r m'] eqn:E.
  unfold copy_file in E. run; sourced.
Qed.

End ClientContents.

(** X19.  No operation invents content.  After [write_file(p, c)], every
    text held by a regular file was held by a file before the call or is
    [c] itself; after [create_directory], [delete_file], [move_file] and
    [copy_file], every text held by a file was held by a file before.
    This holds for every outcome of the call. *)
Theorem content_comes_from_somewhere (m : Machine) (path source destination : PathArg)
    (content : string) (confirm : bool) :
  no_new_content_but (eq content) (fs m)
    (fs (snd (write_file path content confirm m)))
  ∧ no_new_content_but (fun _ => False) (fs m)
      (fs (snd (create_directory path confirm m)))
  ∧ no_new_content_but (fun _ => False) (fs m)
      (fs (snd (delete_file path confirm m)))
  ∧ no_new_content_but (fun _ => False) (fs m)
      (fs (snd (move_file source destination confirm m)))
  ∧ no_new_content_but (fun _ => False) (fs m)
      (fs (snd (copy_file source destination confirm m))).
Proof.
  split_and!.
  - apply write_file_content.
  - apply create_directory_content.
  - apply delete_file_content.
  - apply move_file_content.
  - apply copy_file_content.
Qed.

(** ** Words *)

Section Words.

Implicit Types (w s : string) (ws : list string).

Lemma fields_no_space s : Forall (fun w => no_space w = true) (PyStr.fields s).
Proof.
  induction s as [|c s IH]; cbn [PyStr.fields]; [by repeat constructor|].
  destruct (PyStr.isspace c) eqn:Hc; [by constructor|].
  destruct (PyStr.fields s) as [|w ws].
  - repeat constructor. cbn [no_space]. by rewrite Hc.
  - inversion IH; subst. constructor; [cbn [no_space]; by rewrite Hc|done].
Qed.

(** [split] yields words. *)
Lemma split_words s : Forall is_word (PyStr.split s).
Proof.
  unfold PyStr.split.
  induction (fields_no_space s) as [|w ws Hw _ IH]; cbn [List.filter]; [constructor|].
  destruct (String.eqb_spec w EmptyString) as [->|Hne]; cbn [negb]; [done|].
  by constructor.
Qed.

Lemma fields_word w : no_space w = true → PyStr.fields w = [w].
Proof.
  induction w as [|c w IH]; [done|]. cbn [no_space PyStr.fields].
  intros [Hc Hw]%andb_prop. apply negb_true_iff in Hc. by rewrite Hc, (IH Hw).
Qed.

Lemma fields_app w s :
  no_space w = true → PyStr.fields (w +:+ " " +:+ s) = w :: PyStr.fields s.
Proof.
  induction w as [|c w IH]; [done|]. cbn [no_space]. intros [Hc Hw]%andb_prop.
  apply negb_true_iff in Hc. rewrite append_String. cbn [PyStr.fields].
  by rewrite Hc, (IH Hw).
Qed.

Lemma fields_join ws :
  ws ≠ [] → Forall is_word ws → PyStr.fields (PyStr.join " " ws) = ws.
Proof.
  intros Hne Hws. induction Hws as [|w ws [_ Hw] Hws IH]; [done|].
  destruct ws as [|w' ws]; [by apply fields_word|].
  change (PyStr.join " " (w :: w' :: ws)) with (w +:+ " " +:+ PyStr.join " " (w' :: ws)).
  rewrite fields_app by done. f_equal. by apply IH.
Qed.

Lemma filter_words ws :
  Forall is_word ws →
  List.filter (fun w => negb (String.eqb w EmptyString)) ws = ws.
Proof.
  induction 1 as [|w ws [Hne _] _ IH]; [done|]. cbn [List.filter].
  destruct (String.eqb_spec w EmptyString); [done|]. cbn [negb]. by rewrite IH.
Qed.

(** Words joined by single blanks split into the same words. *)
Lemma split_join ws : Forall is_word ws → PyStr.split (PyStr.join " " ws) = ws.
Proof.
  intros Hws. destruct ws as [|w ws]; [done|].
  unfold PyStr.split. by rewrite fields_join, filter_words.
Qed.

Lemma joined_words_single_spaced ws :
  Forall is_word ws → single_spaced (PyStr.join " " ws).
Proof. intros Hws. unfold single_spaced. by rewrite split_join. Qed.

End Words.

Section ShellContents.

Implicit Types (m : Machine) (P Q : string → Prop).

Lemma content_weaken P Q fs fs' :
  (∀ c, P c → Q c) → no_new_content_but P fs fs' → no_new_content_but Q fs fs'.
Proof. intros HPQ H q c Hq. destruct (H q c Hq); auto. Qed.

Lemma content_same P fs fs' : fs' = fs → no_new_content_but P fs fs'.
Proof. intros ->. apply content_refl. Qed.

End ShellContents.

(** X20.  The shell command [fs] stores single-spaced text only: after any
    line, every text held by a regular file was held by a file before or
    is its own words joined by single blanks.  ([fs write] builds the
    content from the words of the line, so a run of blanks, a tab or a
    line break in it is stored as one blank, and none is stored at either
    end.) *)
Theorem shell_stores_single_spaced (arg : string) (m : Machine) :
  no_new_content_but single_spaced (fs m) (fs (snd (Shell.do_fs arg m))).
Proof.
  unfold Shell.do_fs.
  destruct (List.length (PyStr.split arg) =? 0)%nat eqn:Hlen; [apply content_refl|].
  rewrite caught_state.
  pose proof (split_words arg) as Hwords. revert Hwords.
  generalize (PyStr.lower (Shell.item 0 (PyStr.split arg))) as cmd.
  generalize (PyStr.split arg) as args. clear Hlen. intros args cmd Hwords.
  repeat match goal with
         | |- context [String.eqb cmd ?w] =>
             destruct (String.eqb_spec cmd w) as [->|?]
         end;
    repeat match goal with
           | |- context [String.eqb (String ?c ?a) ?b] =>
               let v := eval vm_compute in (String.eqb (String c a) b) in
               change (String.eqb (String c a) b) with v
           end;
    cbv iota;
    repeat match goal with
           | |- context [(?a <? ?b)%nat] => destruct (Nat.ltb_spec a b)
           end;
    try apply content_refl;
    rewrite ?then_unit_state;
    first
      [ apply create_directory_content | apply delete_file_content
      | apply move_file_content | apply copy_file_content
      | eapply content_weaken; [|apply write_file_content];
        intros c <-; apply joined_words_single_spaced; by apply Forall_drop
      | apply content_same;
        rewrite ?read_file_keeps_fs, ?list_directory_keeps_fs, ?get_file_info_answer;
        try done;
        unfold bind; repeat case_match;
        rewrite ?file_exists_answer, ?directory_exists_answer in *; by simplify_eq ].
Qed.

Example do_fs_write_ex :
  fs (snd (Shell.do_fs "WRITE  n.txt  a   b " (client_on bare_fs 100 None)))
    !! ["a"; "ws"; "n.txt"] = Some (File "a b").
Proof. vm_compute. reflexivity. Qed.

Example do_fs_missing_word_ex :
  Shell.do_fs "write n.txt" (client_on bare_fs 100 None)
  = (Return tt, client_on bare_fs 100 None).
Proof. vm_compute. reflexivity. Qed.

Example do_fs_caught_ex :
  Shell.do_fs "read ../../etc/passwd" (client_on bare_fs 100 None)
  = (Return tt, client_on bare_fs 100 None).
Proof. vm_compute. reflexivity. Qed.

(** ** Listing: refusals and the record *)

(** X21.  What [list_directory] does with a candidate inside the
    workspace that the operating system takes (no NUL byte, names within
    the limits), besides the listing itself: a missing path raises
    [FileNotFoundError] and a regular file raises [NotADirectoryError],
    both before anything is recorded or touched; a directory is listed,
    and one successful [READ] record with the workspace-relative name
    (a dot for the workspace itself) is logged. *)
Theorem list_directory_outcomes (m : Machine) (path : PathArg) :
  well_named path m → inside_workspace path m →
  let p := resolve_arg path m in
  match fs m !! p with
  | None =>
      ∃ e, list_directory path m = (Raise e, m)
           ∧ exn_class_of e = FileNotFoundError
  | Some (File _) =>
      ∃ e, list_directory path m = (Raise e, m)
           ∧ exn_class_of e = NotADirectoryError
  | Some Dir =>
      ∃ infos m' rel,
        list_directory path m = (Return infos, m')
        ∧ List.length infos = List.length (OS.iterdir p (fs m))
        ∧ PathLib.relative_to p (workspace_dir (self m)) = Some rel
        ∧ history m'
          = trim (history_size (self m))
              (history m
               ++ [ActionRecord.mk READ (now m) (Some (PathLib.str_rel rel))
                     None true None false])%list
  end.
Proof.
  intros _ [rel Hrel] p. subst p.
  pose proof (relative_to_startswith _ _ _ Hrel) as Hpre.
  destruct (collect_infos_all (workspace_dir (self m)) (fs m)
              (OS.iterdir (resolve_arg path m) (fs m))) as (infos & Hc & HF).
  { apply Forall_forall. intros q Hq. by apply iterdir_child_of in Hq as [? _]. }
  apply Forall2_length in HF.
  destruct (fs m !! resolve_arg path m) as [[c|]|] eqn:Hp;
    destruct (list_directory path m) as [r m'] eqn:E; unfold list_directory in E;
    run; unfold OS.exists_, OS.is_dir in *; rewrite ?Hp in *; simplify_eq;
    try congruence.
  - eexists. by split.
  - match goal with
    | |- context [(?f (OS.iterdir ?p ?fs), _)] =>
        change (f (OS.iterdir p fs))
          with (collect_infos (workspace_dir (self m0)) fs (OS.iterdir p fs))
    end.
    rewrite Hc. eexists _, _, _. split; [reflexivity|].
    rewrite history_record_action. by split_and!.
  - eexists. by split.
Qed.

Lemma list_directory_outcomes_witness :
  let m := client_on stocked_fs 100 None in
  well_named (PStr "f") m ∧ inside_workspace (PStr "f") m
  ∧ well_named (PStr "nothing") m ∧ inside_workspace (PStr "nothing") m
  ∧ (∃ e, list_directory (PStr "f") m = (Raise e, m)
          ∧ exn_class_of e = NotADirectoryError)
  ∧ (∃ e, list_directory (PStr "nothing") m = (Raise e, m)
          ∧ exn_class_of e = FileNotFoundError).
Proof.
  assert (inside_workspace (PStr "f") (client_on stocked_fs 100 None)) as Hf
    by (vm_compute; eauto).
  assert (inside_workspace (PStr "nothing") (client_on stocked_fs 100 None)) as Hn
    by (vm_compute; eauto).
  assert (well_named (PStr "f") (client_on stocked_fs 100 None)) as Hnf by (by split).
  assert (well_named (PStr "nothing") (client_on stocked_fs 100 None)) as Hnn
    by (by split).
  cbv zeta. split_and!; [exact Hnf | exact Hf | exact Hnn | exact Hn | | ].
  - exact (list_directory_outcomes (client_on stocked_fs 100 None) (PStr "f") Hnf Hf).
  - exact (list_directory_outcomes (client_on stocked_fs 100 None) (PStr "nothing")
             Hnn Hn).
Defined.

(** ** The exit code of a probe *)


